(** * Actor-critic policy: replay buffer, action selection, TD targets
      and the training loop of [playground/policies/actor_critic.py].

    The Python code computes with floating-point numbers.  The embedding is
    written once over a small numeric interface [Num] and instantiated
    twice: with exact rationals [Q] (the idealised arithmetic in which the
    algebraic facts are stated) and with binary64 primitive floats (the
    arithmetic CPython really performs on [float] values). *)

From Stdlib Require Import ZArith QArith Qabs Qpower Qfield Lqa Lia List Bool.
From Stdlib Require Import Ascii String.
From Stdlib Require Import PrimFloat Uint63.
From stdpp Require Import base list strings gmap.
Import ListNotations.

Set Implicit Arguments.
Set Default Proof Using "Type".

(** ** Numbers *)

Class Num (R : Type) : Type := {
  num_of_Z : Z -> R;
  num_add : R -> R -> R;
  num_sub : R -> R -> R;
  num_mul : R -> R -> R;
  num_div : R -> R -> R;
  num_abs : R -> R;
  num_ltb : R -> R -> bool
}.

(** A decimal literal [n/d] of the source, such as [0.01] = [lit 1 100].
    For binary64 the correctly rounded quotient of two exactly
    representable integers is the double nearest to the decimal literal. *)
Definition lit {R} `{Num R} (n : Z) (d : positive) : R :=
  num_div (num_of_Z n) (num_of_Z (Zpos d)).

Definition Qltb (x y : Q) : bool := negb (Qle_bool y x).

#[export] Instance Num_Q : Num Q := {|
  num_of_Z := inject_Z;
  num_add := Qplus;
  num_sub := Qminus;
  num_mul := Qmult;
  num_div := Qdiv;
  num_abs := Qabs;
  num_ltb := Qltb
|}.

Definition float_of_Z (z : Z) : float :=
  if (z <? 0)%Z
  then PrimFloat.opp (PrimFloat.of_uint63 (Uint63.of_Z (- z)))
  else PrimFloat.of_uint63 (Uint63.of_Z z).

#[export] Instance Num_float : Num float := {|
  num_of_Z := float_of_Z;
  num_add := PrimFloat.add;
  num_sub := PrimFloat.sub;
  num_mul := PrimFloat.mul;
  num_div := PrimFloat.div;
  num_abs := PrimFloat.abs;
  num_ltb := PrimFloat.ltb
|}.

Fixpoint num_sum {R} `{Num R} (l : list R) : R :=
  match l with
  | [] => num_of_Z 0
  | x :: l' => num_add x (num_sum l')
  end.

(** [np.mean] of a non-empty list. *)
Definition np_mean {R} `{Num R} (l : list R) : R :=
  num_div (num_sum l) (num_of_Z (Z.of_nat (length l))).

(** Python's [l[-k:]]: the last [k] elements (all of them when shorter). *)
Definition last_n {A} (k : nat) (l : list A) : list A :=
  drop (length l - k) l.

(** ** Observations

    An observation is a numpy array: a shape and its row-major contents. *)

Record ndarray (R : Type) : Type := mk_ndarray {
  nd_shape : list nat;
  nd_data : list R
}.

(** [ob.flatten()] *)
Definition flatten {R} (ob : ndarray R) : ndarray R :=
  {| nd_shape := [length (nd_data ob)]; nd_data := nd_data ob |}.

(** [ActorCriticPolicy.obs_to_inputs] *)
Definition obs_to_inputs {R} (ob : ndarray R) : ndarray R := flatten ob.

(** ** Records and the replay memory *)

(** [Record = namedtuple('Record', ['s', 'a', 'r', 'td_target'])] *)
Record Record_ (R : Type) : Type := mkRecord {
  rec_s : ndarray R;
  rec_a : nat;
  rec_r : R;
  rec_td_target : R
}.

(** A popped batch: one array per field of the tuple class. *)
Record Batch (R : Type) : Type := mkBatch {
  batch_s : list (ndarray R);
  batch_a : list nat;
  batch_r : list R;
  batch_td_target : list R
}.

Inductive exn : Type :=
| ZeroDivisionError
| InsufficientDataError
| IndexError
| ValueError.

(** How a call ends: with a value, with an exception, or not within the
    fuel given to the loops. *)
Inductive outcome (A : Type) : Type :=
| Done (a : A)
| Raise (e : exn)
| Timeout.
Arguments Raise {A} e.
Arguments Timeout {A}.

Module ReplayMemory.
Section Memory.
Context {R : Type}.

(** Modelled from the spec: the class [ReplayMemory] is imported from
    [playground.policies.base], whose source is missing here.  The buffer
    is the ordered sequence of unconsumed records. *)
Definition t : Type := list (Record_ R).

(** Modelled from the spec: a freshly constructed memory is empty. *)
Definition empty : t := [].

(** Modelled from the spec: [size] is the current count of unconsumed
    records. *)
Definition size (m : t) : nat := length m.

(** Modelled from the spec: [add(record)] appends one record and always
    succeeds. *)
Definition add (rec : Record_ R) (m : t) : t := m ++ [rec].

(** Modelled from the spec: the column-major form, one array per field. *)
Definition reformat (recs : list (Record_ R)) : Batch R :=
  {| batch_s := map (@rec_s R) recs;
     batch_a := map (@rec_a R) recs;
     batch_r := map (@rec_r R) recs;
     batch_td_target := map (@rec_td_target R) recs |}.

(** Modelled from the spec: [pop(n)] requires [size >= n] and fails with
    [InsufficientDataError] otherwise; it returns the [n] earliest-inserted
    records in column-major form and removes them.  No partial pops. *)
Definition pop (n : nat) (m : t) : exn + (Batch R * t) :=
  if (n <=? size m)%nat
  then inr (reformat (take n m), drop n m)
  else inl InsufficientDataError.

(** The number of records a batch holds. *)
Definition batch_len (b : Batch R) : nat := length (batch_s b).
End Memory.
End ReplayMemory.

(** ** The collaborators of the policy

    The environment, the random number generator, the two networks and the
    optimisers are external: they are taken as an interface over explicit
    states, so that every call of the source is a function of the state it
    reads and returns the state it leaves. *)

(** The [feed_dict] of the fused training step. *)
Record Feed (R : Type) : Type := mkFeed {
  feed_learning_rate_c : R;
  feed_learning_rate_a : R;
  feed_states : list (ndarray R);
  feed_actions : list nat;
  feed_rewards : list R;
  feed_td_targets : list R;
  feed_ep_reward : R
}.

Class Collab (R : Type) : Type := {
  Rng : Type;        (* the state of [np.random] *)
  Env : Type;        (* the state of [self.env], its action space included *)
  Params : Type;     (* the variables held by [self.sess] *)
  np_random_random : Rng -> R * Rng;
  np_random_choice : nat -> list R -> Rng -> nat * Rng;
  env_reset : Env -> ndarray R * Env;
  env_step : nat -> Env -> (ndarray R * R * bool) * Env;
  action_space_sample : Env -> nat * Env;
  action_space_n : Env -> nat;
  actor_eval : Params -> ndarray R -> list R;
  tf_softmax : list R -> list R;
  critic_eval : Params -> ndarray R -> list R;
  sess_run_train_ops : Params -> Feed R -> Params
}.

(** The fields of [self] set by [__init__]. *)
Record Policy (R : Type) : Type := mkPolicy {
  training : bool;
  gamma : R;
  lr_a : R;
  lr_a_decay : R;
  lr_c : R;
  lr_c_decay : R;
  batch_size : nat
}.

Section Agent.
Context {R : Type} {num : Num R} {collab : Collab R}.

(** *** Events

    Every call that crosses the boundary of the policy is recorded, the
    newest event first.  The log is ghost state: no definition reads it. *)

Inductive act_event : Type :=
| AeRandom (u : R)                                 (* np.random.random() *)
| AeActionSample (a : nat)                         (* env.action_space.sample() *)
| AeActorProba (state : ndarray R) (p : list R)    (* actor_proba.eval *)
| AeChoice (n : nat) (p : list R) (a : nat).       (* np.random.choice *)

Inductive event : Type :=
| EvReset (ob : ndarray R)
| EvAct (state : ndarray R) (epsilon : R) (tr : list act_event) (a : nat)
| EvEnvStep (a : nat) (ob_next : ndarray R) (r : R) (done : bool)
| EvCritic (state : ndarray R) (row : list R)
| EvMemAdd (rec : Record_ R)
| EvMemPop (n : nat) (batch : Batch R)
| EvTrainOps (feed : Feed R)
| EvAddSummary (step : Z)
| EvSaveModel (step : Z).

Record World : Type := mkWorld {
  w_rng : Rng;
  w_env : Env;
  w_sess : Params;
  w_memory : ReplayMemory.t (R := R);
  w_log : list event
}.

Definition set_rng (x : Rng) (w : World) : World :=
  mkWorld x (w_env w) (w_sess w) (w_memory w) (w_log w).
Definition set_env (x : Env) (w : World) : World :=
  mkWorld (w_rng w) x (w_sess w) (w_memory w) (w_log w).
Definition set_sess (x : Params) (w : World) : World :=
  mkWorld (w_rng w) (w_env w) x (w_memory w) (w_log w).
Definition set_memory (x : ReplayMemory.t) (w : World) : World :=
  mkWorld (w_rng w) (w_env w) (w_sess w) x (w_log w).
Definition push_log (e : event) (w : World) : World :=
  mkWorld (w_rng w) (w_env w) (w_sess w) (w_memory w) (e :: w_log w).

(** *** The monad of the training loop: state, exceptions and fuel.
    The world is returned in every case, so that what happened before an
    exception or before the fuel ran out can still be inspected. *)

Definition M (A : Type) : Type := World -> outcome A * World.

Definition ret {A} (a : A) : M A := fun w => (Done a, w).
Definition bind {A B} (m : M A) (k : A -> M B) : M B :=
  fun w =>
    match m w with
    | (Done a, w') => k a w'
    | (Raise e, w') => (Raise e, w')
    | (Timeout, w') => (Timeout, w')
    end.
Definition raise {A} (e : exn) : M A := fun w => (Raise e, w).
Definition timeout {A} : M A := fun w => (Timeout, w).
Definition emit (e : event) : M unit := fun w => (Done tt, push_log e w).

#[local] Instance M_ret : MRet M := @ret.
#[local] Instance M_bind : MBind M := fun A B k m => bind m k.

Variable self : Policy R.

(** [self.act_size] *)
Definition act_size (env : Env) : nat := action_space_n env.

(** *** [ActorCriticPolicy.act]

    The pure core: from the parameters and the two random states to the
    action, the calls made, and the states left. *)
Definition act_infer (theta : Params) (state : ndarray R)
    (pre : list act_event) (rng : Rng) (env : Env)
  : nat * list act_event * Rng * Env :=
  let action_proba := tf_softmax (actor_eval theta state) in
  let '(a, rng') := np_random_choice (act_size env) action_proba rng in
  (a, pre ++ [AeActorProba state action_proba;
              AeChoice (act_size env) action_proba a], rng', env).

Definition act_core (theta : Params) (state : ndarray R) (epsilon : R)
    (rng : Rng) (env : Env) : nat * list act_event * Rng * Env :=
  if training self then
    let '(u, rng1) := np_random_random rng in
    if num_ltb u epsilon then
      let '(a, env1) := action_space_sample env in
      (a, [AeRandom u; AeActionSample a], rng1, env1)
    else act_infer theta state [AeRandom u] rng1 env
  else act_infer theta state [] rng env.

Definition act (state : ndarray R) (epsilon : R) : M nat :=
  fun w =>
    let '(a, tr, rng', env') :=
      act_core (w_sess w) state epsilon (w_rng w) (w_env w) in
    (Done a, push_log (EvAct state epsilon tr a) (set_env env' (set_rng rng' w))).

(** The default of the keyword argument: [epsilon=0.1]. *)
Definition act_default_epsilon : R := lit 1 10.

(** *** The calls of the training loop, with their effect on the world *)

Definition env_reset_m : M (ndarray R) :=
  fun w =>
    let '(ob, env') := env_reset (w_env w) in
    (Done ob, push_log (EvReset ob) (set_env env' w)).

Definition env_step_m (a : nat) : M (ndarray R * R * bool) :=
  fun w =>
    let '(ob_next, r, done, env') := env_step a (w_env w) in
    (Done (ob_next, r, done),
     push_log (EvEnvStep a ob_next r done) (set_env env' w)).

(** [self.critic.eval({self.states: [state]})[0]]: the row of the only
    state of the batch. *)
Definition critic_row (state : ndarray R) : M (list R) :=
  fun w =>
    let row := critic_eval (w_sess w) state in
    (Done row, push_log (EvCritic state row) w).

(** [row[0]] *)
Definition index0 (row : list R) : M R :=
  match row with
  | [] => raise IndexError
  | v :: _ => ret v
  end.

Definition memory_add (rec : Record_ R) : M unit :=
  fun w =>
    (Done tt,
     push_log (EvMemAdd rec) (set_memory (ReplayMemory.add rec (w_memory w)) w)).

Definition memory_size : M nat :=
  fun w => (Done (ReplayMemory.size (w_memory w)), w).

Definition memory_pop (n : nat) : M (Batch R) :=
  fun w =>
    match ReplayMemory.pop n (w_memory w) with
    | inl e => (Raise e, w)
    | inr (batch, m') => (Done batch, push_log (EvMemPop n batch) (set_memory m' w))
    end.

(** [self.sess.run([self.train_ops, self.merged_summary], feed_dict=...)] *)
Definition run_train_ops (feed : Feed R) : M unit :=
  fun w =>
    (Done tt,
     push_log (EvTrainOps feed) (set_sess (sess_run_train_ops (w_sess w) feed) w)).

(** *** The local variables of [train] *)

Record TrainVars : Type := mkTrainVars {
  tv_step : Z;
  tv_episode_reward : R;
  tv_reward_history : list R;
  tv_reward_averaged : list R;
  tv_lr_c : R;
  tv_lr_a : R;
  tv_eps : R
}.

(** The variables set afresh by every episode. *)
Record EpVars : Type := mkEpVars {
  ev_ob : ndarray R;
  ev_a : nat;
  ev_obs : list (ndarray R);
  ev_actions : list nat;
  ev_rewards : list R;
  ev_td_targets : list R
}.

(** [reward_history[-1] if reward_history else 0.0] *)
Definition last_reward (reward_history : list R) : R :=
  List.last reward_history (num_of_Z 0).

(** The inner loop [while self.memory.size >= self.batch_size]. *)
Fixpoint drain (fuel : nat) (tv : TrainVars) : M unit :=
  match fuel with
  | O => timeout
  | S fuel' =>
      n ← memory_size;
      if (batch_size self <=? n)%nat then
        batch ← memory_pop (batch_size self);
        run_train_ops
          {| feed_learning_rate_c := tv_lr_c tv;
             feed_learning_rate_a := tv_lr_a tv;
             feed_states := batch_s batch;
             feed_actions := batch_a batch;
             feed_rewards := batch_r batch;
             feed_td_targets := batch_td_target batch;
             feed_ep_reward := last_reward (tv_reward_history tv) |};;
        emit (EvAddSummary (tv_step tv));;
        drain fuel' tv
      else ret tt
  end.

(** One pass through the body of [while not done]; the result tells
    whether the environment reported the end of the episode. *)
Definition step_body (dfuel : nat) (tv : TrainVars) (ev : EpVars)
  : M (TrainVars * EpVars * bool) :=
  a ← act (ev_ob ev) (tv_eps tv);
  '(ob_next, r, done) ← env_step_m a;
  let tv1 :=
    {| tv_step := (tv_step tv + 1)%Z;
       tv_episode_reward := num_add (tv_episode_reward tv) r;
       tv_reward_history := tv_reward_history tv;
       tv_reward_averaged := tv_reward_averaged tv;
       tv_lr_c := tv_lr_c tv;
       tv_lr_a := tv_lr_a tv;
       tv_eps := tv_eps tv |} in
  row ← critic_row ob_next;
  next_value ← index0 row;
  let td_target := num_add r (num_mul (gamma self) next_value) in
  memory_add (mkRecord (ev_ob ev) a r td_target);;
  let ev1 :=
    {| ev_ob := ob_next;
       ev_a := a;
       ev_obs := ev_obs ev ++ [obs_to_inputs (ev_ob ev)];
       ev_actions := ev_actions ev ++ [a];
       ev_rewards := ev_rewards ev ++ [r];
       ev_td_targets := ev_td_targets ev ++ [td_target] |} in
  drain dfuel tv1;;
  ret (tv1, ev1, done).

(** [while not done: ...]; [done] is [False] on entry. *)
Fixpoint step_loop (fuel dfuel : nat) (tv : TrainVars) (ev : EpVars)
  : M (TrainVars * EpVars) :=
  match fuel with
  | O => timeout
  | S fuel' =>
      '(tv1, ev1, done) ← step_body dfuel tv ev;
      if done : bool then ret (tv1, ev1) else step_loop fuel' dfuel tv1 ev1
  end.

(** [if eps > 0.01: eps -= eps_drop] *)
Definition anneal (eps_drop eps : R) : R :=
  if num_ltb (lit 1 100) eps then num_sub eps eps_drop else eps.

(** The statements after the step loop ("One trajectory is complete!"). *)
Definition episode_end (eps_drop : R) (tv : TrainVars) : TrainVars :=
  let reward_history := tv_reward_history tv ++ [tv_episode_reward tv] in
  {| tv_step := tv_step tv;
     tv_episode_reward := num_of_Z 0;
     tv_reward_history := reward_history;
     tv_reward_averaged :=
       tv_reward_averaged tv ++ [np_mean (last_n 10 reward_history)];
     tv_lr_c := num_mul (tv_lr_c tv) (lr_c_decay self);
     tv_lr_a := num_mul (tv_lr_a tv) (lr_a_decay self);
     tv_eps := anneal eps_drop (tv_eps tv) |}.

(** The body of [for n_episode in range(n_episodes)]. *)
Definition episode (fuel : nat) (eps_drop : R) (tv : TrainVars) : M TrainVars :=
  ob ← env_reset_m;
  a ← act ob act_default_epsilon;
  '(tv1, _) ← step_loop fuel fuel tv (mkEpVars ob a [] [] [] []);
  ret (episode_end eps_drop tv1).

Fixpoint episodes (fuel : nat) (eps_drop : R) (n : nat) (tv : TrainVars)
  : M TrainVars :=
  match n with
  | O => ret tv
  | S n' =>
      tv1 ← episode fuel eps_drop tv;
      episodes fuel eps_drop n' tv1
  end.

(** [eps = .5] *)
Definition initial_epsilon : R := lit 1 2.

(** [annealing_episodes or n_episodes] *)
Definition annealing_or (annealing_episodes : option Z) (n_episodes : Z) : Z :=
  match annealing_episodes with
  | None => n_episodes
  | Some n => if (n =? 0)%Z then n_episodes else n
  end.

(** [eps_drop = (eps - 0.01) / annealing_episodes] *)
Definition eps_drop_of (annealing : Z) : R :=
  num_div (num_sub initial_epsilon (lit 1 100)) (num_of_Z annealing).

Definition initial_vars : TrainVars :=
  {| tv_step := 0;
     tv_episode_reward := num_of_Z 0;
     tv_reward_history := [];
     tv_reward_averaged := [];
     tv_lr_c := lr_c self;
     tv_lr_a := lr_a self;
     tv_eps := initial_epsilon |}.

(** [ActorCriticPolicy.train].  The reports printed on the way are not
    modelled, nor is [every_episode], which only selects them; the learning
    curve plotted at the end is not either.  [np.max] of an empty history
    raises [ValueError].  The final variables are returned for inspection. *)
Definition train (fuel : nat) (n_episodes : Z) (annealing_episodes : option Z)
  : M TrainVars :=
  let annealing := annealing_or annealing_episodes n_episodes in
  if (annealing =? 0)%Z then raise ZeroDivisionError
  else
    tv ← episodes fuel (eps_drop_of annealing) (Z.to_nat n_episodes) initial_vars;
    emit (EvSaveModel (tv_step tv));;
    match tv_reward_history tv with
    | [] => raise ValueError
    | _ :: _ => ret tv
    end.

End Agent.

(** ** The graph built by [ActorCriticPolicy.build]

    The tensors of the graph are functions of the variable store and of the
    fed rows.  They are written once over a numeric type [D]; evaluated on
    plain numbers they give values, evaluated on dual numbers (a value and
    a tangent) they give derivatives, which is how the gradients of the two
    optimisers are defined. *)

Class StopGradient (D : Type) : Type := tf_stop_gradient : D -> D.

#[export] Instance StopGradient_Q : StopGradient Q := fun x => x.
#[export] Instance StopGradient_float : StopGradient float := fun x => x.

(** Dual numbers: the value and its derivative along one direction. *)
Definition dual (R : Type) : Type := (R * R)%type.

Definition dual_const {R} `{Num R} (x : R) : dual R := (x, num_of_Z 0).

Definition dual_abs {R} `{Num R} (x : dual R) : dual R :=
  (num_abs (fst x),
   if num_ltb (num_of_Z 0) (fst x) then snd x
   else if num_ltb (fst x) (num_of_Z 0) then num_sub (num_of_Z 0) (snd x)
   else num_of_Z 0).

#[export] Instance Num_dual {R} `{Num R} : Num (dual R) := {|
  num_of_Z := fun z => dual_const (num_of_Z z);
  num_add := fun x y => (num_add (fst x) (fst y), num_add (snd x) (snd y));
  num_sub := fun x y => (num_sub (fst x) (fst y), num_sub (snd x) (snd y));
  num_mul := fun x y =>
    (num_mul (fst x) (fst y),
     num_add (num_mul (fst x) (snd y)) (num_mul (snd x) (fst y)));
  num_div := fun x y =>
    (num_div (fst x) (fst y),
     num_div (num_sub (num_mul (snd x) (fst y)) (num_mul (fst x) (snd y)))
             (num_mul (fst y) (fst y)));
  num_abs := dual_abs;
  num_ltb := fun x y => num_ltb (fst x) (fst y)
|}.

(** [tf.stop_gradient]: the value passes, the derivative does not. *)
#[export] Instance StopGradient_dual {R} `{Num R} : StopGradient (dual R) :=
  fun x => dual_const (fst x).

Section Graph.
Context {D : Type} `{Num D} `{StopGradient D}.

(** The variable store of the session: the value of every global variable,
    by name. *)
#[local] Abbreviation Store := (gmap string (list D)).

(** [playground.utils.tf_ops.mlp(inputs, layers_sizes, name=...)], applied
    to one row of the input: a black box of the scope name, the layer
    widths, the variables and the row. *)
Variable mlp : string -> list nat -> Store -> list D -> list D.

(** [tf.nn.sparse_softmax_cross_entropy_with_logits] on one row. *)
Variable sparse_softmax_cross_entropy_with_logits : list D -> nat -> D.

(** [self.layer_sizes] and [self.act_size]. *)
Variable layer_sizes : list nat.
Variable act_size : nat.

(** [self.actor = mlp(self.states, self.layer_sizes + [self.act_size], name='actor')] *)
Definition actor (st : Store) (state : list D) : list D :=
  mlp "actor" (layer_sizes ++ [act_size]) st state.

(** [self.critic = mlp(self.states, self.layer_sizes + [1], name='critic')] *)
Definition critic (st : Store) (state : list D) : list D :=
  mlp "critic" (layer_sizes ++ [1%nat]) st state.

(** [tf.one_hot(indices, depth, on_value, off_value)] for one index; an
    index outside [0, depth) gives a row of [off_value]. *)
Definition one_hot (index depth : nat) (on_value off_value : D) : list D :=
  map (fun i => if (i =? index)%nat then on_value else off_value) (seq 0 depth).

(** [action_ohe = tf.one_hot(self.actions, self.act_size, 1.0, 0.0)] *)
Definition action_ohe (a : nat) : list D :=
  one_hot a act_size (num_of_Z 1) (num_of_Z 0).

(** The product of two rows under broadcasting: equal widths multiply
    pointwise, a width of one is stretched; other widths do not match. *)
Definition broadcast_mul (x y : list D) : option (list D) :=
  if (length x =? length y)%nat then Some (zip_with num_mul x y)
  else match x, y with
       | [x0], _ => Some (map (num_mul x0) y)
       | _, [y0] => Some (map (fun xi => num_mul xi y0) x)
       | _, _ => None
       end.

(** One fed row: a state, the action taken and the stored target. *)
Definition Row : Type := (list D * nat * D)%type.

(** [pred_q = tf.reduce_sum(self.critic * action_ohe, reduction_indices=-1)] *)
Definition pred_q (st : Store) (row : Row) : option D :=
  let '(state, a, _) := row in
  num_sum <$> broadcast_mul (critic st state) (action_ohe a).

(** [self.td_errors = tf.abs(self.td_targets - pred_q)] *)
Definition td_error (st : Store) (row : Row) : option D :=
  let '(_, _, td_target) := row in
  (fun q => num_abs (num_sub td_target q)) <$> pred_q st row.

Definition td_errors (st : Store) (rows : list Row) : option (list D) :=
  mapM (td_error st) rows.

(** [tf.reduce_mean], of at least one value. *)
Definition reduce_mean (l : list D) : D := np_mean l.

(** [self.loss_c = tf.reduce_mean(tf.square(self.td_errors))] *)
Definition loss_c (st : Store) (rows : list Row) : option D :=
  (fun errs => reduce_mean (map (fun e => num_mul e e) errs)) <$> td_errors st rows.

(** [self.loss_a = tf.reduce_mean(tf.stop_gradient(self.td_errors) *
      tf.nn.sparse_softmax_cross_entropy_with_logits(logits=self.actor,
      labels=self.actions))] *)
Definition cross_entropies (st : Store) (rows : list Row) : list D :=
  map (fun row : Row =>
         let '(state, a, _) := row in
         sparse_softmax_cross_entropy_with_logits (actor st state) a) rows.

Definition loss_a (st : Store) (rows : list Row) : option D :=
  (fun errs =>
     reduce_mean (zip_with num_mul (map tf_stop_gradient errs)
                                   (cross_entropies st rows)))
  <$> td_errors st rows.

End Graph.

(** *** Variable scopes *)

(** [self._scope_vars(scope)]: the global variables whose name matches
    [scope] at its beginning; the assertion [len(vars) > 0] fails on an
    empty collection.  The scope is compared letter by letter, which is how
    [tf.get_collection] matches a scope made of letters only, as the two
    scopes [build] passes are; a scope with regular-expression
    metacharacters is outside this definition. *)
Definition scope_vars (scope : string) (global_variables : list string)
  : option (list string) :=
  match filter (fun v => String.prefix scope v = true) global_variables with
  | [] => None
  | vars => Some vars
  end.

(** *** Gradients and the two training operations

    Values are rationals; a derivative is the tangent of the loss evaluated
    on dual numbers, with tangent one at the component differentiated and
    zero everywhere else. *)

Section Gradients.
#[local] Abbreviation DStore := (gmap string (list (dual Q))).

Variable mlp : string -> list nat -> DStore -> list (dual Q) -> list (dual Q).
Variable sparse_softmax_cross_entropy_with_logits : list (dual Q) -> nat -> dual Q.
Variable layer_sizes : list nat.
Variable act_size : nat.

(** A number whose derivative is zero. *)
Definition is_const (x : dual Q) : Prop := (snd x == 0)%Q.

(** The store with the direction of differentiation: component [i] of
    variable [v]. *)
Definition seed (st : gmap string (list Q)) (v : string) (i : nat) : DStore :=
  map_imap
    (fun name vals =>
       Some (imap (fun j x =>
                     (x, if bool_decide (name = v /\ j = i) then 1%Q else 0%Q))
                  vals))
    st.

(** Fed values do not depend on any variable. *)
Definition feed_row (row : list Q * nat * Q) : Row (D := dual Q) :=
  let '(state, a, td_target) := row in
  (map dual_const state, a, dual_const td_target).

Definition partial_derivative
    (loss : DStore -> list (Row (D := dual Q)) -> option (dual Q))
    (st : gmap string (list Q)) (rows : list (list Q * nat * Q))
    (v : string) (i : nat) : option Q :=
  snd <$> loss (seed st v i) (map feed_row rows).

(** The gradient of a loss with respect to one variable. *)
Definition tf_gradients
    (loss : DStore -> list (Row (D := dual Q)) -> option (dual Q))
    (st : gmap string (list Q)) (rows : list (list Q * nat * Q))
    (v : string) : option (list Q) :=
  mapM (partial_derivative loss st rows v)
       (seq 0 (length (default [] (st !! v)))).

(** [optimizer.compute_gradients(loss, var_list)] *)
Definition compute_gradients
    (loss : DStore -> list (Row (D := dual Q)) -> option (dual Q))
    (var_list : list string)
    (st : gmap string (list Q)) (rows : list (list Q * nat * Q))
  : option (list (list Q * string)) :=
  mapM (fun v => (fun g => (g, v)) <$> tf_gradients loss st rows v) var_list.

(** [tf.clip_by_norm] and the update rule of [tf.train.AdamOptimizer] with
    its moment accumulators are taken as given. *)
Variable clip_by_norm : list Q -> Q -> list Q.
Variable Slot : Type.
Variable adam : Q -> list Q -> list Q -> option Slot -> list Q * Slot.

(** [if self.grad_clip_norm: grads = [(tf.clip_by_norm(grad, ...), var) ...]] *)
Definition clip_gradients (grad_clip_norm : option Q)
    (grads : list (list Q * string)) : list (list Q * string) :=
  match grad_clip_norm with
  | None => grads
  | Some c =>
      if Qeq_bool c 0 then grads
      else map (fun gv => (clip_by_norm gv.1 c, gv.2)) grads
  end.

(** [optimizer.apply_gradients(grads_and_vars)].  The store holds the
    variables of the two networks; the accumulators of Adam (the moments
    and the powers of the betas, variables of the graph too) are kept
    apart, in the slots. *)
Definition apply_gradients (lr : Q) (grads : list (list Q * string))
    (s : gmap string (list Q) * gmap string Slot)
  : gmap string (list Q) * gmap string Slot :=
  foldl (fun s gv =>
           match s.1 !! gv.2 with
           | Some x =>
               let '(x', slot') := adam lr gv.1 x (s.2 !! gv.2) in
               (<[gv.2 := x']> s.1, <[gv.2 := slot']> s.2)
           | None => s
           end)
        s grads.

(** [self.train_op_a]: the gradients of [loss_a] with respect to
    [actor_vars], clipped, applied by the optimiser of the actor. *)
Definition train_op_a (actor_vars : list string) (grad_clip_norm : option Q)
    (lr : Q) (rows : list (list Q * nat * Q))
    (s : gmap string (list Q) * gmap string Slot)
  : option (gmap string (list Q) * gmap string Slot) :=
  (fun grads => apply_gradients lr (clip_gradients grad_clip_norm grads) s)
  <$> compute_gradients
        (loss_a mlp sparse_softmax_cross_entropy_with_logits layer_sizes act_size)
        actor_vars s.1 rows.

(** [self.train_op_c], likewise for [loss_c] and [critic_vars]. *)
Definition train_op_c (critic_vars : list string) (grad_clip_norm : option Q)
    (lr : Q) (rows : list (list Q * nat * Q))
    (s : gmap string (list Q) * gmap string Slot)
  : option (gmap string (list Q) * gmap string Slot) :=
  (fun grads => apply_gradients lr (clip_gradients grad_clip_norm grads) s)
  <$> compute_gradients (loss_c mlp layer_sizes act_size) critic_vars s.1 rows.

(** [self.train_ops = [self.train_op_c, self.train_op_a]], run together on
    one batch.  TensorFlow fixes no order between the two operations; both
    gradients are taken at the values before the step. *)
Definition train_ops (actor_vars critic_vars : list string)
    (grad_clip_norm : option Q) (lr_c lr_a : Q)
    (rows : list (list Q * nat * Q))
    (s : gmap string (list Q) * gmap string Slot * gmap string Slot)
  : option (gmap string (list Q) * gmap string Slot * gmap string Slot) :=
  let '(vars, slots_c, slots_a) := s in
  grads_c ← compute_gradients (loss_c mlp layer_sizes act_size)
              critic_vars vars rows;
  grads_a ← compute_gradients
              (loss_a mlp sparse_softmax_cross_entropy_with_logits
                 layer_sizes act_size)
              actor_vars vars rows;
  let s1 := apply_gradients lr_c (clip_gradients grad_clip_norm grads_c)
              (vars, slots_c) in
  let s2 := apply_gradients lr_a (clip_gradients grad_clip_norm grads_a)
              (s1.1, slots_a) in
  Some (s2.1, s1.2, s2.2).

End Gradients.

(** The two collections of [build]: [actor_vars] is read once the actor is
    built, [critic_vars] once the critic is built too.  The names of the
    variables [mlp] creates, and of those that exist before, are given. *)
Definition build_vars (mlp_variables : string -> list nat -> list string)
    (global_variables : list string) (layer_sizes : list nat) (act_size : nat)
  : option (list string * list string) :=
  let gv1 := global_variables ++ mlp_variables "actor" (layer_sizes ++ [act_size]) in
  actor_vars ← scope_vars "actor" gv1;
  let gv2 := gv1 ++ mlp_variables "critic" (layer_sizes ++ [1%nat]) in
  critic_vars ← scope_vars "critic" gv2;
  Some (actor_vars, critic_vars).

(** A network for concrete runs of the graph: every output is the sum of
    the variable [name/w] and of the input. *)
Definition toy_mlp {D} `{Num D} (name : string) (sizes : list nat)
    (st : gmap string (list D)) (x : list D) : list D :=
  replicate (List.last sizes 0%nat)
    (num_add (num_sum (default [] (st !! (name +:+ "/w")))) (num_sum x)).

Definition toy_cross_entropy {D} `{Num D} (logits : list D) (a : nat) : D :=
  nth a logits (num_of_Z 0).

Definition toy_mlp_variables (name : string) (sizes : list nat) : list string :=
  [name +:+ "/w"].

Definition toy_store : gmap string (list Q) :=
  {[ "actor/w" := [1%Q; 2%Q]; "critic/w" := [3%Q] ]}.

Definition toy_rows : list (list Q * nat * Q) :=
  [([1%Q; 2%Q], 1%nat, 5%Q); ([0%Q; 1%Q], 0%nat, 2%Q)].

(** Plain gradient descent in the place of Adam, and no clipping. *)
Definition toy_adam (lr : Q) (g x : list Q) (slot : option unit)
  : list Q * unit :=
  (zip_with (fun xi gi => xi - lr * gi)%Q x g, tt).

Definition toy_clip (g : list Q) (c : Q) : list Q := g.

(** ** Reading the log

    The log is a complete account of what changed the session and the
    memory, so both can be recomputed from it; the functions below are used
    in statements only. *)

Section Replay.
Context {R : Type} {num : Num R} {collab : Collab R}.

(** The parameters after the training steps of a log (newest event first). *)
Fixpoint params_at (theta0 : Params) (log : list (event (R := R))) : Params :=
  match log with
  | [] => theta0
  | EvTrainOps feed :: h => sess_run_train_ops (params_at theta0 h) feed
  | _ :: h => params_at theta0 h
  end.

(** The memory after the additions and pops of a log. *)
Fixpoint memory_at (m0 : ReplayMemory.t (R := R)) (log : list (event (R := R)))
  : ReplayMemory.t (R := R) :=
  match log with
  | [] => m0
  | EvMemAdd rec :: h => ReplayMemory.add rec (memory_at m0 h)
  | EvMemPop n _ :: h => drop n (memory_at m0 h)
  | _ :: h => memory_at m0 h
  end.

(** The number of episodes started. *)
Fixpoint count_resets (log : list (event (R := R))) : nat :=
  match log with
  | [] => 0
  | EvReset _ :: h => S (count_resets h)
  | _ :: h => count_resets h
  end.

Definition after_reset (log : list (event (R := R))) : bool :=
  match log with
  | EvReset _ :: _ => true
  | _ => false
  end.

(** The exploration rate after [k] completed episodes. *)
Definition eps_at (eps_drop : R) (k : nat) : R :=
  Nat.iter k (anneal eps_drop) initial_epsilon.

(** A learning rate after [k] completed episodes. *)
Definition lr_at (lr decay : R) (k : nat) : R :=
  Nat.iter k (fun x => num_mul x decay) lr.

(** What the loop guarantees of an event [e] given the history [h] before
    it. *)
Definition event_ok (self : Policy R) (theta0 : Params)
    (m0 : ReplayMemory.t (R := R)) (eps_drop : R)
    (e : event) (h : list event) : Prop :=
  match e with
  | EvReset _ => after_reset h = false
  | EvAct state epsilon _ _ =>
      match h with
      | EvReset ob :: _ => state = ob /\ epsilon = act_default_epsilon
      | _ => epsilon = eps_at eps_drop (count_resets h - 1)
      end
  | EvEnvStep a _ _ _ =>
      exists ob tr h',
        h = EvAct ob (eps_at eps_drop (count_resets h - 1)) tr a :: h' /\
        after_reset h' = false
  | EvCritic state row =>
      row = critic_eval (params_at theta0 h) state /\
      exists a r done h', h = EvEnvStep a state r done :: h'
  | EvMemAdd rec =>
      exists ob epsilon tr a ob_next r done v row h',
        h = EvCritic ob_next (v :: row) :: EvEnvStep a ob_next r done
              :: EvAct ob epsilon tr a :: h' /\
        rec = mkRecord ob a r (num_add r (num_mul (gamma self) v))
  | EvMemPop n batch =>
      after_reset h = false /\
      n = batch_size self /\
      (n <= ReplayMemory.size (memory_at m0 h))%nat /\
      batch = ReplayMemory.reformat (take n (memory_at m0 h))
  | EvTrainOps feed =>
      exists n batch h',
        h = EvMemPop n batch :: h' /\
        feed_states feed = batch_s batch /\
        feed_actions feed = batch_a batch /\
        feed_rewards feed = batch_r batch /\
        feed_td_targets feed = batch_td_target batch
  | EvAddSummary _ => after_reset h = false
  | EvSaveModel _ => after_reset h = false
  end.

(** [P] holds of every event of the log with the history before it. *)
Fixpoint all_events (P : event (R := R) -> list event -> Prop) (log : list event)
  : Prop :=
  match log with
  | [] => True
  | e :: h => P e h /\ all_events P h
  end.

(** The invariant of the world: session and memory are what the log says,
    and every event is as the loop guarantees. *)
Definition world_ok (self : Policy R) (theta0 : Params)
    (m0 : ReplayMemory.t (R := R)) (eps_drop : R) (w : World) : Prop :=
  w_sess w = params_at theta0 (w_log w) /\
  w_memory w = memory_at m0 (w_log w) /\
  after_reset (w_log w) = false /\
  all_events (event_ok self theta0 m0 eps_drop) (w_log w).

(** The decidable outcome tests used in statements. *)
Definition raises {A} (e : exn) (o : outcome A) : bool :=
  match o with
  | Raise e' =>
      match e, e' with
      | ZeroDivisionError, ZeroDivisionError
      | InsufficientDataError, InsufficientDataError
      | IndexError, IndexError
      | ValueError, ValueError => true
      | _, _ => false
      end
  | _ => false
  end.

End Replay.

Arguments eps_at : simpl never.
Arguments lr_at : simpl never.

(** ** A small concrete world

    A deterministic environment with episodes of three steps, a counter as
    random generator and one-parameter networks; it is used to run the
    loop on concrete inputs. *)

Section Toy.
Context {R : Type} {num : Num R}.

(** The observation of step [t] of episode [k]: an array of shape (1, 2). *)
Definition toy_ob (k t : nat) : ndarray R :=
  {| nd_shape := [1; 2]%nat;
     nd_data := [num_of_Z (Z.of_nat k); num_of_Z (Z.of_nat t)] |}.

Definition toy_collab : Collab R :=
  {| Rng := nat;
     Env := nat * nat;
     Params := R;
     np_random_random := fun n => (lit (Z.of_nat (n mod 4)) 4, S n);
     np_random_choice := fun k _ n => ((n mod k)%nat, S n);
     env_reset := fun e => (toy_ob (S e.1) 0, (S e.1, 0%nat));
     env_step := fun a e =>
       (toy_ob e.1 (S e.2), num_of_Z (Z.of_nat a), (3 <=? S e.2)%nat, (e.1, S e.2));
     action_space_sample := fun e => (1%nat, e);
     action_space_n := fun _ => 2%nat;
     actor_eval := fun theta _ => [theta; num_of_Z 1];
     tf_softmax := fun l => l;
     critic_eval := fun theta ob => [num_add theta (num_sum (nd_data ob))];
     sess_run_train_ops := fun theta feed =>
       num_add theta
         (num_mul (feed_learning_rate_c feed) (num_sum (feed_td_targets feed))) |}.

Definition toy_policy (batch : nat) : Policy R :=
  {| training := true;
     gamma := lit 9 10;
     lr_a := lit 1 100;
     lr_a_decay := lit 999 1000;
     lr_c := lit 1 1000;
     lr_c_decay := lit 999 1000;
     batch_size := batch |}.

Definition toy_world : World (collab := toy_collab) :=
  mkWorld (collab := toy_collab) 0%nat (0%nat, 0%nat) (num_of_Z 1)
    ReplayMemory.empty [].

End Toy.

(** The log of two episodes of the small world over the rationals, with
    batches of two records. *)
Definition toy_log_Q : list (event (R := Q)) :=
  Eval vm_compute in
    w_log (snd (@train Q Num_Q toy_collab (toy_policy 2) 10 2 None toy_world)).


(** The end of an episode, applied to the result of its step loop. *)
Definition episode_finish {R} {num : Num R} {collab : Collab R} (self : Policy R)
    (eps_drop : R)
    (res : outcome (TrainVars (R := R) * EpVars (R := R)) * World)
  : outcome (TrainVars (R := R)) * World :=
  match res with
  | (Done (tv1, _), w3) => (Done (episode_end self eps_drop tv1), w3)
  | (Raise e, w3) => (Raise e, w3)
  | (Timeout, w3) => (Timeout, w3)
  end.

(** The last record of the first episode of [toy_log_Q] and the first
    record of its second episode. *)
Definition toy_rec_1 : Record_ Q :=
  mkRecord (toy_ob 1 2) 1%nat 1%Q (5507470 # 1000000)%Q.
Definition toy_rec_2 : Record_ Q :=
  mkRecord (toy_ob 2 0) 0%nat 0%Q (3607470 # 1000000)%Q.

(** The small policy in evaluation mode. *)
Definition toy_policy_eval : Policy Q :=
  {| training := false;
     gamma := lit 9 10;
     lr_a := lit 1 100;
     lr_a_decay := lit 999 1000;
     lr_c := lit 1 1000;
     lr_c_decay := lit 999 1000;
     batch_size := 2 |}.

(** The variables of [train] after two episodes of the small world over
    the rationals with batches so large that no training step runs. *)
Definition toy_vars_no_batch : TrainVars (R := Q) :=
  Eval vm_compute in
    match (@episodes Q Num_Q toy_collab (toy_policy 100) 10
             (eps_drop_of 2) 2 (initial_vars (toy_policy 100)) toy_world).1 with
    | Done tv => tv
    | _ => initial_vars (toy_policy 100)
    end.

(** The variables of [train] at the end of twenty episodes of the small
    world in binary64, annealed over ten episodes. *)
Definition toy_vars_float : TrainVars (R := float) :=
  Eval vm_compute in
    match (@train float Num_float toy_collab (toy_policy 2) 10 20 (Some 10%Z)
             toy_world).1 with
    | Done tv => tv
    | _ => initial_vars (toy_policy 2)
    end.

(** Of [n] equally spaced draws [j/n] of [np.random.random()], the number
    that send [act] to the exploring branch. *)
Definition explore_count (epsilon : Q) (n : nat) : nat :=
  length
    (filter
       (fun j : nat =>
          num_ltb (inject_Z (Z.of_nat j) / inject_Z (Z.of_nat n))%Q epsilon = true)
       (seq 0 n)).

(** ** The rest of the module *)

(** An array whose shape accounts for its contents. *)
Definition well_formed {R} (ob : ndarray R) : Prop :=
  length (nd_data ob) = foldr Nat.mul 1%nat (nd_shape ob).

(** [ActorCriticPolicy.obs_size], given the sample of the observation
    space: [sample.flatten().shape[0]]. *)
Definition obs_size {R} (sample : ndarray R) : exn + nat :=
  match nd_shape (flatten sample) with
  | [] => inl IndexError
  | n :: _ => inr n
  end.

(** [np.argmax] of a sequence of counts: the first index of the largest
    entry; an empty sequence raises [ValueError]. *)
Fixpoint argmax_from (best_index best : nat) (i : nat) (l : list nat) : nat :=
  match l with
  | [] => best_index
  | x :: l' =>
      if (best <? x)%nat then argmax_from i x (S i) l'
      else argmax_from best_index best (S i) l'
  end.

Definition np_argmax (l : list nat) : exn + nat :=
  match l with
  | [] => inl ValueError
  | x :: l' => inr (argmax_from 0 x 1 l')
  end.

Section Sample.
Context {R : Type} {num : Num R}.

(** [np.log], [np.exp] and one draw of [np.random.multinomial(1, p, 1)],
    the counts per category, are taken as given. *)
Variable np_log : R -> R.
Variable np_exp : R -> R.
Variable SampleRng : Type.
Variable np_random_multinomial : list R -> SampleRng -> list nat * SampleRng.

(** The weights passed to the draw:
    [preds = np.log(preds) / temperature; exp_preds = np.exp(preds);
     preds = exp_preds / np.sum(exp_preds)],
    for positive [preds] and a [temperature] that is not zero, where every
    intermediate value is finite. *)
Definition sample_weights (preds : list R) (temperature : R) : list R :=
  let preds := map (fun p => num_div (np_log p) temperature) preds in
  let exp_preds := map np_exp preds in
  map (fun e => num_div e (num_sum exp_preds)) exp_preds.

(** [sample(preds, temperature)] *)
Definition sample (preds : list R) (temperature : R) (rng : SampleRng)
  : (exn + nat) * SampleRng :=
  let '(probas, rng') :=
    np_random_multinomial (sample_weights preds temperature) rng in
  (np_argmax probas, rng').

End Sample.

(** The counts of one draw that fell in category [i] of [n]. *)
Definition one_draw (i n : nat) : list nat :=
  map (fun j => if (j =? i)%nat then 1%nat else 0%nat) (seq 0 n).

(** *** More readings of the log *)

Section Reading.
Context {R : Type} {num : Num R} {collab : Collab R}.

(** The calls of [env.step]. *)
Fixpoint count_steps (log : list (event (R := R))) : nat :=
  match log with
  | [] => 0
  | EvEnvStep _ _ _ _ :: h => S (count_steps h)
  | _ :: h => count_steps h
  end.

(** The training steps and the pops. *)
Fixpoint count_train (log : list (event (R := R))) : nat :=
  match log with
  | [] => 0
  | EvTrainOps _ :: h => S (count_train h)
  | _ :: h => count_train h
  end.

Fixpoint count_pops (log : list (event (R := R))) : nat :=
  match log with
  | [] => 0
  | EvMemPop _ _ :: h => S (count_pops h)
  | _ :: h => count_pops h
  end.

(** The records added, the oldest first. *)
Fixpoint added (log : list (event (R := R))) : list (Record_ R) :=
  match log with
  | [] => []
  | EvMemAdd rec :: h => added h ++ [rec]
  | _ :: h => added h
  end.

(** The reward collected since the last reset, summed as [train] does. *)
Fixpoint current_reward (log : list (event (R := R))) : R :=
  match log with
  | [] => num_of_Z 0
  | EvReset _ :: _ => num_of_Z 0
  | EvEnvStep _ _ r _ :: h => num_add (current_reward h) r
  | _ :: h => current_reward h
  end.

(** The totals of the episodes that a reset has closed, the oldest first. *)
Fixpoint closed_totals (log : list (event (R := R))) : list R :=
  match log with
  | [] => []
  | EvReset _ :: h =>
      if (count_resets h =? 0)%nat then []
      else closed_totals h ++ [current_reward h]
  | _ :: h => closed_totals h
  end.

(** The totals of all episodes started. *)
Definition all_totals (log : list (event (R := R))) : list R :=
  if (count_resets log =? 0)%nat then []
  else closed_totals log ++ [current_reward log].


(** The trailing means of a history: entry [k] is the mean of the last ten
    entries up to [k]. *)
Definition trailing_means (l : list R) : list R :=
  map (fun k => np_mean (last_n 10 (take (S k) l))) (seq 0 (length l)).

(** What the loop guarantees of what it feeds and tags, and of the calls
    [act] makes. *)
Definition event_fed (self : Policy R) (e : event (R := R)) (h : list event)
  : Prop :=
  match e with
  | EvTrainOps feed =>
      (1 <= count_resets h)%nat /\
      feed_learning_rate_c feed
        = lr_at (lr_c self) (lr_c_decay self) (count_resets h - 1) /\
      feed_learning_rate_a feed
        = lr_at (lr_a self) (lr_a_decay self) (count_resets h - 1) /\
      feed_ep_reward feed = last_reward (closed_totals h)
  | EvAddSummary step => step = Z.of_nat (count_steps h)
  | EvSaveModel step => step = Z.of_nat (count_steps h)
  | EvAct state _ tr a =>
      if training self
      then exists u tr', tr = AeRandom u :: tr'
      else exists p n, tr = [AeActorProba state p; AeChoice n p a]
  | _ => True
  end.

(** The variables of [train] inside an episode, read from the log. *)
Definition vars_in_episode (self : Policy R) (tv : TrainVars) (w : World)
  : Prop :=
  tv_step tv = Z.of_nat (count_steps (w_log w)) /\
  tv_lr_c tv = lr_at (lr_c self) (lr_c_decay self) (count_resets (w_log w) - 1) /\
  tv_lr_a tv = lr_at (lr_a self) (lr_a_decay self) (count_resets (w_log w) - 1) /\
  tv_episode_reward tv = current_reward (w_log w) /\
  tv_reward_history tv = closed_totals (w_log w) /\
  tv_reward_averaged tv = trailing_means (tv_reward_history tv) /\
  length (added (w_log w)) = count_steps (w_log w) /\
  count_pops (w_log w) = count_train (w_log w) /\
  (1 <= count_resets (w_log w))%nat /\
  all_events (event_fed self) (w_log w).

(** The variables of [train] between two episodes. *)
Definition vars_between (self : Policy R) (tv : TrainVars) (w : World)
  : Prop :=
  tv_step tv = Z.of_nat (count_steps (w_log w)) /\
  tv_lr_c tv = lr_at (lr_c self) (lr_c_decay self) (count_resets (w_log w)) /\
  tv_lr_a tv = lr_at (lr_a self) (lr_a_decay self) (count_resets (w_log w)) /\
  tv_episode_reward tv = num_of_Z 0 /\
  tv_reward_history tv = all_totals (w_log w) /\
  tv_reward_averaged tv = trailing_means (tv_reward_history tv) /\
  length (added (w_log w)) = count_steps (w_log w) /\
  count_pops (w_log w) = count_train (w_log w) /\
  all_events (event_fed self) (w_log w).

Definition is_done {A} (o : outcome A) : bool :=
  match o with
  | Done _ => true
  | _ => false
  end.

End Reading.

(** Two runs of the small world over the rationals: two episodes in
    training mode with batches of two records, and one episode in
    evaluation mode. *)
Definition toy_run_Q
  : outcome (TrainVars (R := Q)) * World (R := Q) (collab := toy_collab) :=
  @train Q Num_Q toy_collab (toy_policy 2) 10 2 None toy_world.

Definition toy_run_eval
  : outcome (TrainVars (R := Q)) * World (R := Q) (collab := toy_collab) :=
  @train Q Num_Q toy_collab toy_policy_eval 10 1 None toy_world.

(** The variables the first of them returns. *)
Definition toy_vars_Q : TrainVars (R := Q) :=
  Eval vm_compute in
    match toy_run_Q.1 with
    | Done tv => tv
    | _ => initial_vars (toy_policy 2)
    end.

(** What its second training step is fed. *)
Definition toy_feed_2 : Feed Q :=
  Eval vm_compute in
    match nth 13 toy_log_Q (EvSaveModel 0) with
    | EvTrainOps feed => feed
    | _ => mkFeed 0%Q 0%Q [] [] [] [] 0%Q
    end.

(** * Properties *)

(** ** The replay memory *)

Section MemoryProps.
Context {R : Type}.
Implicit Types (m : ReplayMemory.t (R := R)) (rec : Record_ R).

Lemma adds_are_buffer (recs : list (Record_ R)) m :
  foldl (fun m rec => ReplayMemory.add rec m) m recs = m ++ recs.
Proof.
  revert m. induction recs as [|rec recs IH]; intros m; simpl.
  - by rewrite app_nil_r.
  - rewrite IH. unfold ReplayMemory.add. by rewrite <- app_assoc.
Qed.

Lemma reformat_lengths (recs : list (Record_ R)) :
  length (batch_s (ReplayMemory.reformat recs)) = length recs /\
  length (batch_a (ReplayMemory.reformat recs)) = length recs /\
  length (batch_r (ReplayMemory.reformat recs)) = length recs /\
  length (batch_td_target (ReplayMemory.reformat recs)) = length recs.
Proof. unfold ReplayMemory.reformat; simpl. by rewrite !length_map. Qed.

Lemma pop_enough n m :
  (n <= ReplayMemory.size m)%nat ->
  ReplayMemory.pop n m = inr (ReplayMemory.reformat (take n m), drop n m).
Proof.
  intros Hn. unfold ReplayMemory.pop.
  destruct (Nat.leb_spec n (ReplayMemory.size m)); [done | lia].
Qed.

Lemma pop_short n m :
  (ReplayMemory.size m < n)%nat ->
  ReplayMemory.pop n m = inl InsufficientDataError.
Proof.
  intros Hn. unfold ReplayMemory.pop.
  destruct (Nat.leb_spec n (ReplayMemory.size m)); [lia | done].
Qed.

End MemoryProps.

(** ** Proof steps shared by the lemmas on the loop *)

(** Name the results of the two calls that open the body of the step
    loop: [act] and [env.step]. *)
Ltac open_step :=
  destruct (act_core _ _ _ _ _ _) as [[[a tr] rng1] env1];
  destruct (env_step a env1) as [[[ob_next r] done] env2];
  cbn zeta.

(** Close the cases of a conjunction of [k] facts followed by a statement
    about a returned value, when nothing was returned. *)
Tactic Notation "not_returned" integer(k) :=
  do k (split; [assumption || done|]); intros; discriminate.

(** ** The training loop keeps its log well formed *)

Section LoopProps.
Context {R : Type} {num : Num R} {collab : Collab R}.
Variable self : Policy R.
Variable theta0 : Params.
Variable m0 : ReplayMemory.t (R := R).
Variable eps_drop : R.

#[local] Abbreviation ok := (world_ok self theta0 m0 eps_drop).

Lemma drain_unfold fuel tv w :
  drain self (S fuel) tv w =
  if (batch_size self <=? ReplayMemory.size (w_memory w))%nat then
    let batch := ReplayMemory.reformat (take (batch_size self) (w_memory w)) in
    let feed :=
      {| feed_learning_rate_c := tv_lr_c tv;
         feed_learning_rate_a := tv_lr_a tv;
         feed_states := batch_s batch;
         feed_actions := batch_a batch;
         feed_rewards := batch_r batch;
         feed_td_targets := batch_td_target batch;
         feed_ep_reward := last_reward (tv_reward_history tv) |} in
    drain self fuel tv
      (push_log (EvAddSummary (tv_step tv))
         (push_log (EvTrainOps feed)
            (set_sess (sess_run_train_ops (w_sess w) feed)
               (push_log (EvMemPop (batch_size self) batch)
                  (set_memory (drop (batch_size self) (w_memory w)) w)))))
  else (Done tt, w).
Proof.
  cbn [drain]. unfold mbind, M_bind, bind, memory_size at 1.
  destruct (Nat.leb_spec (batch_size self) (ReplayMemory.size (w_memory w))) as [Hle|Hlt].
  - unfold memory_pop at 1. rewrite pop_enough by done.
    unfold run_train_ops at 1, emit at 1. cbn.
    by destruct (drain self fuel tv _) as [[]].
  - done.
Qed.

Lemma drain_spec fuel tv w :
  ok w ->
  ok (drain self fuel tv w).2 /\
  count_resets (w_log (drain self fuel tv w).2) = count_resets (w_log w) /\
  ((drain self fuel tv w).1 = Done tt \/ (drain self fuel tv w).1 = Timeout).
Proof.
  revert w. induction fuel as [|fuel IH]; intros w Hok.
  - cbn. auto.
  - rewrite drain_unfold.
    destruct (Nat.leb_spec (batch_size self) (ReplayMemory.size (w_memory w)))
      as [Hle|Hlt]; [|cbn; auto].
    cbn zeta.
    match goal with |- context [drain self fuel tv ?w1] =>
      destruct (IH w1) as (Hok1 & Hcnt & Hout) end.
    + destruct Hok as (Hs & Hm & Har & Hall).
      unfold world_ok; cbn. rewrite <- Hs, <- Hm.
      repeat split; try done.
      eexists _, _, _; repeat split; reflexivity.
    + split; [done|]. split; [|done]. rewrite Hcnt. done.
Qed.

(** The result of one pass through the loop body, call by call. *)
Lemma step_body_unfold dfuel tv ev w :
  step_body self dfuel tv ev w =
  let '(a, tr, rng1, env1) :=
    act_core self (w_sess w) (ev_ob ev) (tv_eps tv) (w_rng w) (w_env w) in
  let w1 := push_log (EvAct (ev_ob ev) (tv_eps tv) tr a)
              (set_env env1 (set_rng rng1 w)) in
  let '(ob_next, r, done, env2) := env_step a env1 in
  let w2 := push_log (EvEnvStep a ob_next r done) (set_env env2 w1) in
  let row := critic_eval (w_sess w) ob_next in
  let w3 := push_log (EvCritic ob_next row) w2 in
  match row with
  | [] => (Raise IndexError, w3)
  | next_value :: _ =>
      let td_target := num_add r (num_mul (gamma self) next_value) in
      let rec := mkRecord (ev_ob ev) a r td_target in
      let w4 := push_log (EvMemAdd rec)
                  (set_memory (ReplayMemory.add rec (w_memory w)) w3) in
      let tv1 :=
        {| tv_step := (tv_step tv + 1)%Z;
           tv_episode_reward := num_add (tv_episode_reward tv) r;
           tv_reward_history := tv_reward_history tv;
           tv_reward_averaged := tv_reward_averaged tv;
           tv_lr_c := tv_lr_c tv;
           tv_lr_a := tv_lr_a tv;
           tv_eps := tv_eps tv |} in
      let ev1 :=
        {| ev_ob := ob_next;
           ev_a := a;
           ev_obs := ev_obs ev ++ [obs_to_inputs (ev_ob ev)];
           ev_actions := ev_actions ev ++ [a];
           ev_rewards := ev_rewards ev ++ [r];
           ev_td_targets := ev_td_targets ev ++ [td_target] |} in
      match drain self dfuel tv1 w4 with
      | (Done _, w5) => (Done (tv1, ev1, done), w5)
      | (Raise e, w5) => (Raise e, w5)
      | (Timeout, w5) => (Timeout, w5)
      end
  end.
Proof.
  unfold step_body, mbind, M_bind, bind, act at 1.
  destruct (act_core _ _ _ _ _ _) as [[[a tr] rng1] env1].
  unfold env_step_m at 1. cbn.
  destruct (env_step a env1) as [[[ob_next r] done] env2]. cbn.
  destruct (critic_eval (w_sess w) ob_next) as [|v row]; [done|]. cbn.
  by destruct (drain _ _ _ _) as [[] ?].
Qed.

Lemma step_body_spec dfuel tv ev w :
  ok w ->
  tv_eps tv = eps_at eps_drop (count_resets (w_log w) - 1) ->
  let res := step_body self dfuel tv ev w in
  ok res.2 /\
  count_resets (w_log res.2) = count_resets (w_log w) /\
  raises InsufficientDataError res.1 = false /\
  raises ZeroDivisionError res.1 = false /\
  (forall tv1 ev1 done, res.1 = Done (tv1, ev1, done) ->
     tv_eps tv1 = tv_eps tv /\ tv_lr_a tv1 = tv_lr_a tv /\
     tv_lr_c tv1 = tv_lr_c tv /\
     tv_reward_history tv1 = tv_reward_history tv).
Proof.
  intros Hok Heps res. subst res. rewrite step_body_unfold.
  open_step.
  destruct Hok as (Hs & Hm & Har & Hall).
  assert (Hact : event_ok self theta0 m0 eps_drop
                   (EvAct (ev_ob ev) (tv_eps tv) tr a) (w_log w)).
  { cbn. destruct (w_log w) as [|[] ?]; try done. }
  destruct (critic_eval (w_sess w) ob_next) as [|v row] eqn:Hrow.
  - cbn. unfold world_ok; cbn. rewrite <- Hs, Hrow, <- Heps.
    repeat split; try done; eauto 10.
    by destruct (w_log w) as [|[] ?].
  - cbn zeta.
    match goal with |- context [drain self dfuel ?tv1 ?w4] =>
      destruct (drain_spec dfuel tv1 (w := w4)) as (Hok5 & Hcnt & Hout) end.
    { unfold world_ok; cbn. rewrite <- Hs, <- Hm, Hrow, <- Heps.
      repeat split; try done; eauto 15.
      by destruct (w_log w) as [|[] ?]. }
    destruct (drain _ _ _ _) as [[[]| |] w5]; cbn in *.
    + do 4 (split; [done|]). by intros ? ? ? [= <- _ _].
    + destruct Hout; discriminate.
    + not_returned 4.
Qed.

Lemma step_loop_spec fuel dfuel tv ev w :
  ok w ->
  tv_eps tv = eps_at eps_drop (count_resets (w_log w) - 1) ->
  let res := step_loop self fuel dfuel tv ev w in
  ok res.2 /\
  count_resets (w_log res.2) = count_resets (w_log w) /\
  raises InsufficientDataError res.1 = false /\
  raises ZeroDivisionError res.1 = false /\
  (forall tv1 ev1, res.1 = Done (tv1, ev1) ->
     tv_eps tv1 = tv_eps tv /\ tv_lr_a tv1 = tv_lr_a tv /\
     tv_lr_c tv1 = tv_lr_c tv /\
     tv_reward_history tv1 = tv_reward_history tv).
Proof.
  revert tv ev w. induction fuel as [|fuel IH]; intros tv ev w Hok Heps.
  - cbn. not_returned 4.
  - cbn [step_loop]. unfold mbind, M_bind, bind.
    destruct (step_body_spec dfuel tv ev Hok Heps) as (Hok1 & Hcnt & Hr1 & Hr2 & Hvars).
    destruct (step_body self dfuel tv ev w) as [[[[tv1 ev1] done]| |] w1];
      cbn [fst snd] in *;
      try (not_returned 4).
    destruct (Hvars _ _ _ eq_refl) as (He & Ha & Hc & Hh).
    destruct done.
    + cbn. do 4 (split; [done|]). by intros ? ? [= <- _].
    + destruct (IH tv1 ev1 w1 Hok1) as (Hok2 & Hcnt2 & Hr3 & Hr4 & Hvars2).
      { by rewrite He, Hcnt. }
      cbn zeta in *. do 4 (split; [done || congruence|]).
      intros tv2 ev2 Hd. destruct (Hvars2 _ _ Hd) as (? & ? & ? & ?).
      repeat split; congruence.
Qed.

Lemma episode_unfold fuel tv w :
  episode self fuel eps_drop tv w =
  let '(ob, env1) := env_reset (w_env w) in
  let w1 := push_log (EvReset ob) (set_env env1 w) in
  let '(a, tr, rng2, env2) :=
    act_core self (w_sess w) ob act_default_epsilon (w_rng w) env1 in
  let w2 := push_log (EvAct ob act_default_epsilon tr a)
              (set_env env2 (set_rng rng2 w1)) in
  match step_loop self fuel fuel tv (mkEpVars ob a [] [] [] []) w2 with
  | (Done (tv1, _), w3) => (Done (episode_end self eps_drop tv1), w3)
  | (Raise e, w3) => (Raise e, w3)
  | (Timeout, w3) => (Timeout, w3)
  end.
Proof.
  unfold episode, mbind, M_bind, bind, env_reset_m at 1.
  destruct (env_reset (w_env w)) as [ob env1]. unfold act at 1. cbn.
  destruct (act_core _ _ _ _ _ _) as [[[a tr] rng2] env2].
  by destruct (step_loop _ _ _ _ _ _) as [[[tv1 ev1]| |] w3].
Qed.

Lemma episode_spec fuel tv w :
  ok w ->
  tv_eps tv = eps_at eps_drop (count_resets (w_log w)) ->
  let res := episode self fuel eps_drop tv w in
  ok res.2 /\
  raises InsufficientDataError res.1 = false /\
  raises ZeroDivisionError res.1 = false /\
  (forall tv1, res.1 = Done tv1 ->
     count_resets (w_log res.2) = S (count_resets (w_log w)) /\
     tv_eps tv1 = anneal eps_drop (tv_eps tv) /\
     tv_lr_a tv1 = num_mul (tv_lr_a tv) (lr_a_decay self) /\
     tv_lr_c tv1 = num_mul (tv_lr_c tv) (lr_c_decay self) /\
     length (tv_reward_history tv1) = S (length (tv_reward_history tv))).
Proof.
  intros Hok Heps res. subst res. rewrite episode_unfold.
  destruct (env_reset (w_env w)) as [ob env1].
  destruct (act_core _ _ _ _ _ _) as [[[a tr] rng2] env2]. cbn zeta.
  match goal with |- context [step_loop self fuel fuel tv ?ev ?w2] =>
    destruct (step_loop_spec fuel fuel tv ev (w := w2))
      as (Hok3 & Hcnt & Hr1 & Hr2 & Hvars);
    [ | | destruct (step_loop self fuel fuel tv ev w2) as [[[tv1 ev1]| |] w3] ] end.
  - destruct Hok as (Hs & Hm & Har & Hall).
    unfold world_ok; cbn. rewrite <- Hs, <- Hm. repeat split; done.
  - cbn. by rewrite Nat.sub_0_r.
  - cbn [fst snd] in *. do 3 (split; [assumption|]).
    intros tv2 [= <-]. destruct (Hvars _ _ eq_refl) as (He & Ha & Hc & Hh).
    cbn in Hcnt. cbn. rewrite He, Ha, Hc, Hh, length_app. cbn.
    repeat split; try done. lia.
  - cbn [fst snd] in *. not_returned 3.
  - cbn [fst snd] in *. not_returned 3.
Qed.

Lemma episodes_spec fuel n tv w :
  ok w ->
  tv_eps tv = eps_at eps_drop (count_resets (w_log w)) ->
  let res := episodes self fuel eps_drop n tv w in
  ok res.2 /\
  raises InsufficientDataError res.1 = false /\
  raises ZeroDivisionError res.1 = false /\
  (forall tv1, res.1 = Done tv1 ->
     count_resets (w_log res.2) = (n + count_resets (w_log w))%nat /\
     tv_eps tv1 = Nat.iter n (anneal eps_drop) (tv_eps tv) /\
     tv_lr_a tv1 = lr_at (tv_lr_a tv) (lr_a_decay self) n /\
     tv_lr_c tv1 = lr_at (tv_lr_c tv) (lr_c_decay self) n /\
     length (tv_reward_history tv1) = (n + length (tv_reward_history tv))%nat).
Proof.
  revert tv w. induction n as [|n IH]; intros tv w Hok Heps.
  - cbn. do 3 (split; [done|]). by intros ? [= <-].
  - cbn [episodes]. unfold mbind, M_bind, bind.
    destruct (episode_spec fuel tv Hok Heps) as (Hok1 & Hr1 & Hr2 & Hvars).
    destruct (episode self fuel eps_drop tv w) as [[tv1| |] w1];
      cbn [fst snd] in *;
      try (not_returned 3).
    destruct (Hvars _ eq_refl) as (Hcnt & He & Ha & Hc & Hh).
    destruct (IH tv1 w1 Hok1) as (Hok2 & Hr3 & Hr4 & Hvars2).
    { rewrite He, Hcnt, Heps. reflexivity. }
    cbn zeta in *. do 3 (split; [assumption|]).
    intros tv2 Hd. destruct (Hvars2 _ Hd) as (Hcnt2 & He2 & Ha2 & Hc2 & Hh2).
    rewrite Hcnt2, He2, Ha2, Hc2, Hh2, Hcnt, He, Ha, Hc, Hh.
    unfold lr_at. rewrite !Nat.iter_succ_r.
    repeat split; try done; lia.
Qed.

End LoopProps.

Section TrainProps.
Context {R : Type} {num : Num R} {collab : Collab R}.
Variable self : Policy R.

Lemma all_events_at (P : event (R := R) -> list event -> Prop) l1 e h :
  all_events P (l1 ++ e :: h) -> P e h.
Proof. induction l1 as [|e' l1 IH]; cbn; intros [? ?]; auto. Qed.

Lemma train_spec fuel n_episodes annealing_episodes w0 :
  w_log w0 = [] ->
  let res := train self fuel n_episodes annealing_episodes w0 in
  let eps_drop := eps_drop_of (annealing_or annealing_episodes n_episodes) in
  world_ok self (w_sess w0) (w_memory w0) eps_drop res.2 /\
  raises InsufficientDataError res.1 = false /\
  (forall tv, res.1 = Done tv ->
     count_resets (w_log res.2) = Z.to_nat n_episodes /\
     tv_eps tv = eps_at eps_drop (Z.to_nat n_episodes) /\
     tv_lr_a tv = lr_at (lr_a self) (lr_a_decay self) (Z.to_nat n_episodes) /\
     tv_lr_c tv = lr_at (lr_c self) (lr_c_decay self) (Z.to_nat n_episodes)).
Proof.
  intros Hlog res eps_drop.
  assert (Hok0 : world_ok self (w_sess w0) (w_memory w0) eps_drop w0).
  { unfold world_ok. rewrite Hlog. cbn. done. }
  subst res. unfold train.
  fold eps_drop.
  destruct (annealing_or annealing_episodes n_episodes =? 0)%Z.
  { cbn. not_returned 2. }
  unfold mbind, M_bind, bind.
  destruct (episodes_spec fuel (Z.to_nat n_episodes) (initial_vars self) Hok0)
    as (Hok1 & Hr1 & Hr2 & Hvars).
  { rewrite Hlog. reflexivity. }
  destruct (episodes self fuel eps_drop (Z.to_nat n_episodes) (initial_vars self) w0)
    as [[tv1| |] w1]; cbn [fst snd] in *;
    try (not_returned 2).
  destruct (Hvars _ eq_refl) as (Hcnt & He & Ha & Hc & Hh).
  assert (Hok2 : world_ok self (w_sess w0) (w_memory w0) eps_drop
                   (push_log (EvSaveModel (tv_step tv1)) w1)).
  { destruct Hok1 as (Hs & Hm & Har & Hall). unfold world_ok; cbn.
    repeat split; done. }
  unfold emit. destruct (tv_reward_history tv1); cbn.
  - not_returned 2.
  - do 2 (split; [assumption || done|]). intros tv [= <-].
    rewrite Hlog in Hcnt. cbn in Hcnt. rewrite Nat.add_0_r in Hcnt.
    repeat split; done.
Qed.

End TrainProps.

(** ** The transitions of the step loop *)

Section Transitions.
Context {R : Type} {num : Num R} {collab : Collab R}.
Variable self : Policy R.

Lemma all_events_suffix (P : event (R := R) -> list event -> Prop) l1 h :
  all_events P (l1 ++ h) -> all_events P h.
Proof. induction l1 as [|e' l1 IH]; cbn; [done|]. intros [? ?]; auto. Qed.

(** C1: every record pushed by [train] is the transition just made; its
    [td_target] is [r + gamma * critic(s')[0]], the critic being evaluated
    on the next state under the parameters left by the training steps that
    ran before the transition. *)
Theorem td_target_bootstraps_online
    fuel n_episodes annealing_episodes w0 l1 rec h :
  w_log w0 = [] ->
  w_log (train self fuel n_episodes annealing_episodes w0).2
    = l1 ++ EvMemAdd rec :: h ->
  exists ob epsilon tr a ob_next r done next_value row h',
    h = EvCritic ob_next (next_value :: row) :: EvEnvStep a ob_next r done
          :: EvAct ob epsilon tr a :: h' /\
    next_value :: row = critic_eval (params_at (w_sess w0) h') ob_next /\
    rec = mkRecord ob a r (num_add r (num_mul (gamma self) next_value)).
Proof.
  intros Hlog Hsplit.
  destruct (train_spec self fuel n_episodes annealing_episodes w0 Hlog)
    as ((_ & _ & _ & Hall) & _).
  rewrite Hsplit in Hall.
  pose proof (all_events_at _ _ _ _ Hall) as Hadd.
  destruct Hadd as (ob & epsilon & tr & a & ob_next & r & done & v & row & h'
                    & -> & ->).
  apply all_events_suffix in Hall. destruct Hall as (_ & (Hrow & _) & _).
  cbn in Hrow. eauto 15.
Qed.

End Transitions.

Lemma td_target_bootstraps_online_witness :
  exists ob epsilon tr a ob_next r done next_value row h',
    drop 33 toy_log_Q =
      EvCritic ob_next (next_value :: row) :: EvEnvStep a ob_next r done
        :: EvAct ob epsilon tr a :: h' /\
    next_value :: row
      = critic_eval (Collab := toy_collab)
          (params_at (w_sess (toy_world (R := Q))) h') ob_next /\
    mkRecord (toy_ob 1 0) 1%nat 1%Q (37 # 10)%Q
      = mkRecord ob a r (num_add r (num_mul (gamma (toy_policy 2)) next_value)).
Proof.
  apply (@td_target_bootstraps_online Q Num_Q toy_collab (toy_policy 2)
           10 2%Z None toy_world (take 32 toy_log_Q)
           (mkRecord (toy_ob 1 0) 1%nat 1%Q (37 # 10)%Q) (drop 33 toy_log_Q)).
  - reflexivity.
  - vm_compute. reflexivity.
Defined.

(** ** What is stored and what is fed *)

Section Storage.
Context {R : Type} {num : Num R} {collab : Collab R}.
Variable self : Policy R.




End Storage.


(** ** The calls of [act] made by [train] *)

Section ActCalls.
Context {R : Type} {num : Num R} {collab : Collab R}.
Variable self : Policy R.









End ActCalls.


(** ** The memory across steps and episodes *)

Section MemoryInLoop.
Context {R : Type} {num : Num R} {collab : Collab R}.
Variable self : Policy R.

(** C7: after any sequence of additions, [pop(n)] with [n <= size] returns
    the [n] records added first, as one array of length [n] per field, and
    leaves [size - n] records; with [n > size] it fails with
    [InsufficientDataError]; and [train] never raises that error, every pop
    it makes being a pop of [batch_size] records from a memory that holds
    at least as many. *)
Theorem pop_exactly_n_or_insufficient
    (recs : list (Record_ R)) (n : nat)
    fuel n_episodes annealing_episodes w0 :
  w_log w0 = [] ->
  let m := foldl (fun m rec => ReplayMemory.add rec m) ReplayMemory.empty recs in
  ((n <= ReplayMemory.size m)%nat ->
     exists batch m',
       ReplayMemory.pop n m = inr (batch, m') /\
       batch = ReplayMemory.reformat (take n recs) /\
       length (batch_s batch) = n /\ length (batch_a batch) = n /\
       length (batch_r batch) = n /\ length (batch_td_target batch) = n /\
       m' = drop n recs /\
       ReplayMemory.size m' = (ReplayMemory.size m - n)%nat) /\
  ((ReplayMemory.size m < n)%nat ->
     ReplayMemory.pop n m = inl InsufficientDataError) /\
  raises InsufficientDataError
    (train self fuel n_episodes annealing_episodes w0).1 = false /\
  (forall l1 k batch h,
     w_log (train self fuel n_episodes annealing_episodes w0).2
       = l1 ++ EvMemPop k batch :: h ->
     k = batch_size self /\
     (batch_size self <= ReplayMemory.size (memory_at (w_memory w0) h))%nat /\
     ReplayMemory.batch_len batch = batch_size self).
Proof.
  intros Hlog m. subst m. rewrite adds_are_buffer. cbn [ReplayMemory.empty app].
  destruct (train_spec self fuel n_episodes annealing_episodes w0 Hlog)
    as ((_ & _ & _ & Hall) & Hraise & _).
  split; [|split; [|split]].
  - intros Hn. eexists _, _. split; [by apply pop_enough|].
    destruct (reformat_lengths (take n recs)) as (Hs & Ha & Hr & Ht).
    unfold ReplayMemory.size in *.
    rewrite Hs, Ha, Hr, Ht, length_take, length_drop.
    repeat split; lia.
  - apply pop_short.
  - exact Hraise.
  - intros l1 k batch h Hsplit. rewrite Hsplit in Hall.
    apply all_events_at in Hall. destruct Hall as (_ & -> & Hle & ->).
    split; [done|]. split; [done|].
    unfold ReplayMemory.batch_len, ReplayMemory.size in *.
    destruct (reformat_lengths (take (batch_size self) (memory_at (w_memory w0) h)))
      as (-> & _).
    rewrite length_take. lia.
Qed.

(** What is left in the memory when the inner loop is done. *)
Lemma drain_leftover fuel tv w :
  (drain self fuel tv w).1 = Done tt ->
  (ReplayMemory.size (w_memory (drain self fuel tv w).2) < batch_size self)%nat.
Proof.
  revert w. induction fuel as [|fuel IH]; intros w; [discriminate|].
  rewrite drain_unfold.
  destruct (Nat.leb_spec (batch_size self) (ReplayMemory.size (w_memory w)));
    [apply IH | done].
Qed.

Lemma step_body_leftover dfuel tv ev w res :
  (step_body self dfuel tv ev w).1 = Done res ->
  (ReplayMemory.size (w_memory (step_body self dfuel tv ev w).2)
   < batch_size self)%nat.
Proof.
  rewrite step_body_unfold.
  open_step.
  destruct (critic_eval (w_sess w) ob_next) as [|v row]; [done|].
  match goal with |- context [drain self dfuel ?tv1 ?w4] =>
    pose proof (drain_leftover dfuel tv1 w4) as Hd;
    destruct (drain self dfuel tv1 w4) as [[[]| |] w5] end; try done.
  intros _. by apply Hd.
Qed.

Lemma step_loop_leftover fuel dfuel tv ev w res :
  (step_loop self fuel dfuel tv ev w).1 = Done res ->
  (ReplayMemory.size (w_memory (step_loop self fuel dfuel tv ev w).2)
   < batch_size self)%nat.
Proof.
  revert tv ev w. induction fuel as [|fuel IH]; intros tv ev w; [discriminate|].
  cbn [step_loop]. unfold mbind, M_bind, bind.
  pose proof (step_body_leftover dfuel tv ev w) as Hb.
  destruct (step_body self dfuel tv ev w) as [[[[tv1 ev1] done]| |] w1];
    cbn [fst snd] in *; try discriminate.
  destruct done; [|apply IH]. intros _. by eapply Hb.
Qed.

(** C9: the step loop of an episode starts on the memory as the episode
    before left it; an episode that ends leaves fewer than [batch_size]
    records, which stay; the memory of a run is the replay of its additions
    and pops, and nothing else; and in the small world a batch holds the
    last record of one episode and the first of the next. *)
Theorem memory_kept_across_episodes
    fuel eps_drop tv w n_episodes annealing_episodes w0 :
  w_log w0 = [] ->
  (exists ev w2,
     w_memory w2 = w_memory w /\
     episode self fuel eps_drop tv w
       = episode_finish self eps_drop (step_loop self fuel fuel tv ev w2)) /\
  (forall tv1,
     (episode self fuel eps_drop tv w).1 = Done tv1 ->
     (ReplayMemory.size (w_memory (episode self fuel eps_drop tv w).2)
      < batch_size self)%nat) /\
  w_memory (train self fuel n_episodes annealing_episodes w0).2
    = memory_at (w_memory w0)
        (w_log (train self fuel n_episodes annealing_episodes w0).2) /\
  (exists l1 h1 h2,
     toy_log_Q
       = l1 ++ EvMemPop 2 (ReplayMemory.reformat [toy_rec_1; toy_rec_2])
            :: h1 ++ EvReset (toy_ob 2 0) :: h2 /\
     In (EvMemAdd toy_rec_2) h1 /\ In (EvMemAdd toy_rec_1) h2).
Proof.
  intros Hlog. split; [|split; [|split]].
  - rewrite episode_unfold.
    destruct (env_reset (w_env w)) as [ob env1].
    destruct (act_core _ _ _ _ _ _) as [[[a tr] rng2] env2]. cbn zeta.
    eexists _, _. split; [|reflexivity]. reflexivity.
  - intros tv1. rewrite episode_unfold.
    destruct (env_reset (w_env w)) as [ob env1].
    destruct (act_core _ _ _ _ _ _) as [[[a tr] rng2] env2]. cbn zeta.
    match goal with |- context [step_loop self fuel fuel tv ?ev ?w2] =>
      pose proof (step_loop_leftover fuel fuel tv ev w2) as Hl;
      destruct (step_loop self fuel fuel tv ev w2) as [[[tv2 ev2]| |] w3] end;
      cbn [fst snd] in *; try discriminate.
    intros _. by eapply Hl.
  - by destruct (train_spec self fuel n_episodes annealing_episodes w0 Hlog)
      as ((_ & ? & _) & _).
  - exists (take 14 toy_log_Q), (take 5 (drop 15 toy_log_Q)), (drop 21 toy_log_Q).
    split; [vm_compute; reflexivity|].
    split; vm_compute; tauto.
Qed.

End MemoryInLoop.

Lemma pop_exactly_n_or_insufficient_witness :
  ReplayMemory.pop 2
    (ReplayMemory.add toy_rec_2
       (ReplayMemory.add toy_rec_1
          (ReplayMemory.add toy_rec_2 ReplayMemory.empty)))
  = inr (ReplayMemory.reformat [toy_rec_2; toy_rec_1], [toy_rec_2]) /\
  ReplayMemory.pop 4 [toy_rec_2; toy_rec_1; toy_rec_2]
  = inl InsufficientDataError /\
  raises InsufficientDataError
    (@train Q Num_Q toy_collab (toy_policy 2) 10 2%Z None toy_world).1 = false.
Proof.
  destruct (@pop_exactly_n_or_insufficient Q Num_Q toy_collab (toy_policy 2)
              [toy_rec_2; toy_rec_1; toy_rec_2] 2 10 2%Z None toy_world eq_refl)
    as (Hpop & _ & Hraise & _).
  destruct (@pop_exactly_n_or_insufficient Q Num_Q toy_collab (toy_policy 2)
              [toy_rec_2; toy_rec_1; toy_rec_2] 4 10 2%Z None toy_world eq_refl)
    as (_ & Hshort & _).
  split; [|split].
  - destruct (Hpop ltac:(cbn; lia)) as (batch & m' & Heq & -> & _ & _ & _ & _ & -> & _).
    exact Heq.
  - apply Hshort. cbn; lia.
  - exact Hraise.
Defined.

Lemma memory_kept_across_episodes_witness :
  w_memory (@train Q Num_Q toy_collab (toy_policy 2) 10 2%Z None toy_world).2
  = memory_at (w_memory (toy_world (R := Q))) toy_log_Q.
Proof.
  destruct (@memory_kept_across_episodes Q Num_Q toy_collab (toy_policy 2)
              10 (lit 49 200) (initial_vars (toy_policy 2)) toy_world
              2%Z None toy_world eq_refl)
    as (_ & _ & Hmem & _).
  exact Hmem.
Defined.

(** ** Action selection *)

Section Draws.
Local Open Scope Q_scope.

Lemma Qltb_lt (x y : Q) : Qltb x y = true <-> x < y.
Proof.
  unfold Qltb. rewrite negb_true_iff, <- not_true_iff_false, Qle_bool_iff.
  split; [apply Qnot_le_lt | apply Qlt_not_le].
Qed.

Lemma count_below (k s m : nat) :
  length (filter (fun j => (j < k)%nat) (seq s m))
  = (Nat.min (s + m) k - Nat.min s k)%nat.
Proof.
  revert s. induction m as [|m IH]; intros s; cbn [seq].
  - rewrite Nat.add_0_r. cbn. lia.
  - rewrite filter_cons. case_decide; cbn [length]; rewrite IH; lia.
Qed.

(** Of [n] equally spaced draws, [k] are below [k/n]. *)
Lemma explore_count_fraction (n k : nat) :
  (0 < n)%nat -> (k <= n)%nat ->
  explore_count (inject_Z (Z.of_nat k) / inject_Z (Z.of_nat n)) n = k.
Proof.
  intros Hn Hk. unfold explore_count.
  rewrite (list_filter_iff _ (fun j => (j < k)%nat)).
  - rewrite count_below. lia.
  - intros j. change (@num_ltb Q _) with Qltb. rewrite Qltb_lt.
    assert (Hpos : 0 < / inject_Z (Z.of_nat n)).
    { apply Qinv_lt_0_compat. change 0 with (inject_Z 0).
      rewrite <- Zlt_Qlt. lia. }
    unfold Qdiv. rewrite (Qmult_lt_r _ _ _ Hpos), <- Zlt_Qlt. lia.
Qed.

End Draws.

Section ActProps.
Context {R : Type} {num : Num R} {collab : Collab R}.
Variable self : Policy R.

(** C4: in training mode, when the uniform draw is below [epsilon] the
    action is the sample of the action space and the actor is not
    evaluated (the result is the same under any parameters); otherwise the
    actor is evaluated on the state, passed through the softmax, and the
    action is drawn by [np.random.choice] from that distribution.  Out of
    training mode there is no uniform draw and [epsilon] has no effect.
    The call never fails.  Of [n] equally spaced uniform draws, [k] are
    below [epsilon = k/n]: the exploring branch has probability
    [epsilon]. *)
Theorem act_explores_or_samples theta state epsilon rng env :
  let u := (np_random_random rng).1 in
  let rng1 := (np_random_random rng).2 in
  let p := tf_softmax (actor_eval theta state) in
  (training self = true -> num_ltb u epsilon = true ->
     act_core self theta state epsilon rng env
       = ((action_space_sample env).1,
          [AeRandom u; AeActionSample (action_space_sample env).1],
          rng1, (action_space_sample env).2) /\
     forall theta',
       act_core self theta' state epsilon rng env
       = act_core self theta state epsilon rng env) /\
  (training self = true -> num_ltb u epsilon = false ->
     let a := (np_random_choice (act_size env) p rng1).1 in
     act_core self theta state epsilon rng env
       = (a, [AeRandom u; AeActorProba state p; AeChoice (act_size env) p a],
          (np_random_choice (act_size env) p rng1).2, env)) /\
  (training self = false ->
     let a := (np_random_choice (act_size env) p rng).1 in
     act_core self theta state epsilon rng env
       = (a, [AeActorProba state p; AeChoice (act_size env) p a],
          (np_random_choice (act_size env) p rng).2, env) /\
     forall epsilon',
       act_core self theta state epsilon' rng env
       = act_core self theta state epsilon rng env) /\
  (forall w,
     (act self state epsilon w).1
       = Done (act_core self (w_sess w) state epsilon (w_rng w) (w_env w)).1.1.1) /\
  (forall n k : nat,
     (0 < n)%nat -> (k <= n)%nat ->
     explore_count (inject_Z (Z.of_nat k) / inject_Z (Z.of_nat n))%Q n = k).
Proof.
  intros u rng1 p. subst u rng1 p.
  assert (Hact : forall w,
    (act self state epsilon w).1
    = Done (act_core self (w_sess w) state epsilon (w_rng w) (w_env w)).1.1.1).
  { intros w. unfold act.
    by destruct (act_core _ _ _ _ _ _) as [[[a tr] rng'] env']. }
  unfold act_core, act_infer.
  destruct (np_random_random rng) as [u rng1]. cbn [fst snd].
  split; [|split; [|split; [|split]]];
    [| | |exact Hact|exact explore_count_fraction].
  - intros -> ->. destruct (action_space_sample env) as [a env1]. done.
  - intros -> ->.
    destruct (np_random_choice _ _ rng1) as [a rng2]. reflexivity.
  - intros ->.
    destruct (np_random_choice _ _ rng) as [a rng2]. split; reflexivity.
Qed.

End ActProps.

Lemma act_explores_or_samples_witness :
  act_core (collab := toy_collab) (toy_policy 2) 2%Q (toy_ob 1 0) (1 # 2)%Q
    1%nat (0%nat, 0%nat)
  = (1%nat, [AeRandom (1 # 4)%Q; AeActionSample 1%nat], 2%nat, (0%nat, 0%nat)) /\
  act_core (collab := toy_collab) (toy_policy 2) 2%Q (toy_ob 1 0) (1 # 2)%Q
    2%nat (0%nat, 0%nat)
  = (1%nat, [AeRandom (2 # 4)%Q; AeActorProba (toy_ob 1 0) [2%Q; 1%Q];
             AeChoice 2 [2%Q; 1%Q] 1%nat], 4%nat, (0%nat, 0%nat)) /\
  act_core (collab := toy_collab) toy_policy_eval 2%Q (toy_ob 1 0) 1%Q
    1%nat (0%nat, 0%nat)
  = (1%nat, [AeActorProba (toy_ob 1 0) [2%Q; 1%Q]; AeChoice 2 [2%Q; 1%Q] 1%nat],
     2%nat, (0%nat, 0%nat)) /\
  explore_count (inject_Z (Z.of_nat 1) / inject_Z (Z.of_nat 10))%Q 10 = 1%nat.
Proof.
  split; [|split; [|split]].
  - destruct (@act_explores_or_samples Q Num_Q toy_collab (toy_policy 2)
                2%Q (toy_ob 1 0) (1 # 2)%Q 1%nat (0%nat, 0%nat))
      as (Hexplore & _).
    destruct (Hexplore eq_refl eq_refl) as (Heq & _). exact Heq.
  - destruct (@act_explores_or_samples Q Num_Q toy_collab (toy_policy 2)
                2%Q (toy_ob 1 0) (1 # 2)%Q 2%nat (0%nat, 0%nat))
      as (_ & Hinfer & _).
    exact (Hinfer eq_refl eq_refl).
  - destruct (@act_explores_or_samples Q Num_Q toy_collab toy_policy_eval
                2%Q (toy_ob 1 0) 1%Q 1%nat (0%nat, 0%nat))
      as (_ & _ & Heval & _).
    destruct (Heval eq_refl) as (Heq & _). exact Heq.
  - destruct (@act_explores_or_samples Q Num_Q toy_collab toy_policy_eval
                2%Q (toy_ob 1 0) 1%Q 1%nat (0%nat, 0%nat))
      as (_ & _ & _ & _ & Hcount).
    apply Hcount; lia.
Defined.

(** ** The schedules in exact arithmetic *)

Section ScheduleQ.
Local Open Scope Q_scope.

Lemma lr_at_power (lr decay : Q) (k : nat) :
  lr_at lr decay k == lr * decay ^ Z.of_nat k.
Proof.
  unfold lr_at. induction k as [|k IH].
  - change (lr == lr * 1). ring.
  - rewrite Nat2Z.inj_succ, <- Z.add_1_r, Qpower_plus', Qpower_1_r by lia.
    change (Nat.iter (S k) (fun x : Q => num_mul x decay) lr)
      with (Nat.iter k (fun x : Q => num_mul x decay) lr * decay).
    rewrite IH. ring.
Qed.

Lemma anneal_above (eps_drop eps : Q) :
  1 # 100 < eps -> anneal eps_drop eps = eps - eps_drop.
Proof.
  intros Hlt. unfold anneal.
  replace (num_ltb (lit 1 100) eps) with true; [done|].
  symmetry. apply Qltb_lt. exact Hlt.
Qed.

Lemma anneal_floor (eps_drop eps : Q) :
  eps <= 1 # 100 -> anneal eps_drop eps = eps.
Proof.
  intros Hle. unfold anneal.
  replace (num_ltb (lit 1 100) eps) with false; [done|].
  symmetry. apply not_true_iff_false. intros Hlt%Qltb_lt.
  by apply Qlt_not_le in Hlt.
Qed.

Lemma inject_Z_pos (n : Z) : (0 < n)%Z -> 0 < inject_Z n.
Proof. intros Hn. change (inject_Z 0 < inject_Z n). by rewrite <- Zlt_Qlt. Qed.

Lemma inject_Z_nonzero (n : Z) : (0 < n)%Z -> ~ inject_Z n == 0.
Proof.
  intros Hn Heq. apply inject_Z_pos in Hn. rewrite Heq in Hn.
  by apply Qlt_irrefl in Hn.
Qed.

(** With a positive number [n] of annealing episodes, [eps] goes down the
    line from 1/2 and is exactly 1/100 after [n] episodes. *)
Lemma eps_at_linear (n : Z) (k : nat) :
  (0 < n)%Z -> (Z.of_nat k <= n)%Z ->
  eps_at (eps_drop_of (R := Q) n) k
  == (1 # 2) - inject_Z (Z.of_nat k) * ((49 # 100) / inject_Z n).
Proof.
  intros Hn. unfold eps_at.
  pose proof (inject_Z_nonzero Hn) as Hn0.
  assert (Hd : eps_drop_of (R := Q) n == (49 # 100) / inject_Z n).
  { unfold eps_drop_of, initial_epsilon, lit. cbn [num_div num_sub num_of_Z Num_Q].
    field. exact Hn0. }
  induction k as [|k IH]; intros Hk.
  - change ((1 # 2) == (1 # 2) - 0 * ((49 # 100) / inject_Z n)). ring.
  - rewrite Nat.iter_succ. rewrite Nat2Z.inj_succ in *.
    specialize (IH ltac:(lia)).
    assert (Hlt : inject_Z (Z.of_nat k) * ((49 # 100) / inject_Z n) < 49 # 100).
    { assert (Hkn : inject_Z (Z.of_nat k) < inject_Z n) by (rewrite <- Zlt_Qlt; lia).
      pose proof (inject_Z_pos Hn) as Hpos.
      setoid_replace (inject_Z (Z.of_nat k) * ((49 # 100) / inject_Z n))
        with (((49 # 100) * inject_Z (Z.of_nat k)) / inject_Z n)
        using relation Qeq by (field; exact Hn0).
      apply Qlt_shift_div_r; [exact Hpos|].
      apply Qmult_lt_l; [reflexivity | exact Hkn]. }
    rewrite anneal_above.
    + rewrite IH, Hd. unfold Z.succ. rewrite inject_Z_plus. ring.
    + rewrite IH. lra.
Qed.

Lemma eps_at_floor (n : Z) (k : nat) :
  (0 < n)%Z -> (n <= Z.of_nat k)%Z ->
  eps_at (eps_drop_of (R := Q) n) k == 1 # 100.
Proof.
  intros Hn Hk.
  pose proof (inject_Z_nonzero Hn) as Hn0.
  replace k with ((k - Z.to_nat n) + Z.to_nat n)%nat by lia.
  induction (k - Z.to_nat n)%nat as [|j IH].
  - cbn [Nat.add]. rewrite eps_at_linear by lia.
    rewrite Z2Nat.id by lia. field. exact Hn0.
  - unfold eps_at in *. cbn [Nat.add]. rewrite Nat.iter_succ.
    rewrite anneal_floor; [exact IH|]. rewrite IH. apply Qle_refl.
Qed.

End ScheduleQ.

(** ** The schedules of [train] *)

(** C6: after [k] completed episodes both learning rates are the initial
    rate times the [k]-th power of its decay, whatever the environment, the
    batch size and the number of training steps that ran. *)
Theorem learning_rates_decay_per_episode
    `{Collab Q} (self : Policy Q) fuel eps_drop (k : nat) w tv :
  w_log w = [] ->
  (episodes self fuel eps_drop k (initial_vars self) w).1 = Done tv ->
  (tv_lr_a tv == lr_a self * lr_a_decay self ^ Z.of_nat k)%Q /\
  (tv_lr_c tv == lr_c self * lr_c_decay self ^ Z.of_nat k)%Q.
Proof.
  intros Hlog Hdone.
  assert (Hok : world_ok self (w_sess w) (w_memory w) eps_drop w).
  { unfold world_ok. rewrite Hlog. cbn. done. }
  destruct (episodes_spec fuel k (initial_vars self) Hok)
    as (_ & _ & _ & Hvars).
  { rewrite Hlog. reflexivity. }
  destruct (Hvars _ Hdone) as (_ & _ & -> & -> & _).
  split; apply lr_at_power.
Qed.

Lemma learning_rates_decay_per_episode_witness :
  (tv_lr_a toy_vars_no_batch
   == lr_a (toy_policy 100) * lr_a_decay (toy_policy 100) ^ Z.of_nat 2)%Q /\
  (tv_lr_c toy_vars_no_batch
   == lr_c (toy_policy 100) * lr_c_decay (toy_policy 100) ^ Z.of_nat 2)%Q.
Proof.
  apply (@learning_rates_decay_per_episode toy_collab (toy_policy 100) 10
           (eps_drop_of 2) 2 toy_world toy_vars_no_batch).
  - reflexivity.
  - vm_compute. reflexivity.
Defined.

(** C3, in binary64: with twenty episodes annealed over ten, the step is
    0.049; after ten episodes [eps] is still above 0.01 (it is
    0.010000000000000078), so the eleventh episode subtracts the step once
    more, and the run ends with [eps] = -0.038999999999999924, below the
    floor and below zero, in every environment. *)
Theorem epsilon_falls_below_floor
    `{Collab float} (self : Policy float) fuel w0 tv :
  w_log w0 = [] ->
  (train self fuel 20 (Some 10%Z) w0).1 = Done tv ->
  eps_drop_of (R := float) 10 = lit 49 1000 /\
  PrimFloat.ltb (lit 1 100) (eps_at (eps_drop_of (R := float) 10) 10) = true /\
  tv_eps tv = eps_at (eps_drop_of (R := float) 10) 11 /\
  tv_eps tv = (-0x1.3f7ced916872p-5)%float /\
  PrimFloat.ltb (tv_eps tv) 0 = true.
Proof.
  intros Hlog Hdone.
  destruct (train_spec self fuel 20 (Some 10%Z) w0 Hlog) as (_ & _ & Hvars).
  destruct (Hvars _ Hdone) as (_ & -> & _).
  repeat split; vm_compute; reflexivity.
Qed.

Lemma epsilon_falls_below_floor_witness :
  eps_drop_of (R := float) 10 = lit 49 1000 /\
  PrimFloat.ltb (lit 1 100) (eps_at (eps_drop_of (R := float) 10) 10) = true /\
  tv_eps toy_vars_float = eps_at (eps_drop_of (R := float) 10) 11 /\
  tv_eps toy_vars_float = (-0x1.3f7ced916872p-5)%float /\
  PrimFloat.ltb (tv_eps toy_vars_float) 0 = true.
Proof.
  apply (@epsilon_falls_below_floor toy_collab (toy_policy 2) 10 toy_world
           toy_vars_float).
  - reflexivity.
  - vm_compute. reflexivity.
Defined.

(** ** The critic and the TD error *)

Section CriticValue.
Local Open Scope Q_scope.

Lemma toy_mlp_width {D} `{Num D} name sizes (st : gmap string (list D)) x :
  length (toy_mlp name sizes st x) = List.last sizes 0%nat.
Proof. unfold toy_mlp. apply length_replicate. Qed.

(** The sum of a one-hot row scaled by [v] is [v] at a valid index. *)
Lemma sum_scaled_one_hot (v : Q) (a s n : nat) :
  num_sum (map (num_mul v)
             (map (fun i => if (i =? a)%nat then num_of_Z 1 else num_of_Z 0)
                  (seq s n)))
  == if ((s <=? a) && (a <? s + n))%nat then v else 0.
Proof.
  revert s. induction n as [|n IH]; intros s.
  - replace ((s <=? a) && (a <? s + 0))%nat with false; [reflexivity|].
    symmetry. apply andb_false_iff.
    destruct (Nat.leb_spec s a); [right; apply Nat.ltb_ge; lia | by left].
  - cbn [seq map num_sum]. rewrite IH.
    change (@num_add Q _) with Qplus. change (@num_mul Q _) with Qmult.
    destruct (Nat.eqb_spec s a) as [->|Hne].
    + rewrite Nat.leb_refl.
      replace (S a <=? a)%nat with false by (symmetry; apply Nat.leb_gt; lia).
      replace (a <? a + S n)%nat with true by (symmetry; apply Nat.ltb_lt; lia).
      cbn. ring.
    + replace ((S s <=? a) && (a <? S s + n))%nat
        with ((s <=? a) && (a <? s + S n))%nat.
      * destruct ((s <=? a) && (a <? s + S n))%nat; cbn; ring.
      * destruct (Nat.leb_spec s a), (Nat.leb_spec (S s) a),
          (Nat.ltb_spec a (s + S n)), (Nat.ltb_spec a (S s + n)); cbn; lia.
Qed.

Variable mlp : string -> list nat -> gmap string (list Q) -> list Q -> list Q.
Variable layer_sizes : list nat.
Variable act_size : nat.

(** The builder returns a row of the width of the last layer (its
    interface: "an output vector of the final layer's width"). *)
Hypothesis mlp_width :
  forall name sizes st x, length (mlp name sizes st x) = List.last sizes 0%nat.

Lemma critic_single st state : exists v, critic mlp layer_sizes st state = [v].
Proof using mlp_width.
  pose proof (mlp_width "critic" (layer_sizes ++ [1%nat]) st state) as Hlen.
  rewrite last_last in Hlen. unfold critic.
  destruct (mlp _ _ _ _) as [|v [|? ?]]; try discriminate. eauto.
Qed.

(** C2, as the code has it: the critic gives one value [v] per state, and
    for every valid action the masked sum is [v], so the TD error is
    [|td_target - v|] whatever the action taken. *)
Theorem td_error_uses_single_critic_value st state a td_target :
  (a < act_size)%nat ->
  exists v q e,
    critic mlp layer_sizes st state = [v] /\
    pred_q mlp layer_sizes act_size st (state, a, td_target) = Some q /\
    q == v /\
    td_error mlp layer_sizes act_size st (state, a, td_target) = Some e /\
    e == Qabs (td_target - v).
Proof using mlp_width.
  intros Ha. destruct (critic_single st state) as (v & Hv).
  assert (Hq : exists q,
    pred_q mlp layer_sizes act_size st (state, a, td_target) = Some q /\ q == v).
  { unfold pred_q, broadcast_mul, action_ohe, one_hot. rewrite Hv.
    rewrite length_map, length_seq. cbn [length].
    destruct (Nat.eqb_spec 1 act_size) as [<-|Hne].
    - assert (a = 0)%nat as -> by lia. cbn. eexists; split; [reflexivity|]. ring.
    - eexists; split; [reflexivity|].
      rewrite sum_scaled_one_hot.
      replace ((0 <=? a) && (a <? 0 + act_size))%nat with true; [reflexivity|].
      symmetry. apply andb_true_iff. split; [apply Nat.leb_le | apply Nat.ltb_lt]; lia. }
  destruct Hq as (q & Hq & Hqv).
  exists v, q, (Qabs (td_target - q)). repeat split; try done.
  - unfold td_error. rewrite Hq. reflexivity.
  - by rewrite Hqv.
Qed.

End CriticValue.

Lemma td_error_uses_single_critic_value_witness :
  exists v q e,
    critic toy_mlp [64%nat] toy_store [1%Q; 2%Q] = [v] /\
    pred_q toy_mlp [64%nat] 2 toy_store ([1%Q; 2%Q], 1%nat, 5%Q) = Some q /\
    (q == v)%Q /\
    td_error toy_mlp [64%nat] 2 toy_store ([1%Q; 2%Q], 1%nat, 5%Q) = Some e /\
    (e == Qabs (5 - v))%Q.
Proof.
  apply (@td_error_uses_single_critic_value toy_mlp [64%nat] 2%nat
           (fun name sizes st x => toy_mlp_width name sizes st x)
           toy_store [1%Q; 2%Q] 1%nat 5%Q).
  lia.
Defined.

(** C2, as stated, fails: with two actions the critic row of the small
    network has one entry, not two, and the masked sum is the same for both
    actions. *)
Lemma critic_row_is_not_per_action :
  length (critic (D := Q) toy_mlp [64%nat] toy_store [1%Q; 2%Q]) = 1%nat /\
  (length (critic (D := Q) toy_mlp [64%nat] toy_store [1%Q; 2%Q]) =? 2)%nat
    = false /\
  pred_q toy_mlp [64%nat] 2 toy_store ([1%Q; 2%Q], 0%nat, 5%Q)
  = pred_q toy_mlp [64%nat] 2 toy_store ([1%Q; 2%Q], 1%nat, 5%Q).
Proof. vm_compute. repeat split; reflexivity. Qed.

(** ** The stop-gradient boundary *)

Section ConstDual.
Local Open Scope Q_scope.
Implicit Types x y : dual Q.

Lemma const_of_Z z : is_const (num_of_Z z).
Proof. unfold is_const. cbn. reflexivity. Qed.

Lemma const_dual_const (q : Q) : is_const (dual_const q).
Proof. unfold is_const. cbn. reflexivity. Qed.

Lemma const_stop_gradient x : is_const (tf_stop_gradient x).
Proof. unfold is_const. cbn. reflexivity. Qed.

Lemma const_add x y : is_const x -> is_const y -> is_const (num_add x y).
Proof.
  unfold is_const. destruct x as [a a'], y as [b b']. cbn. intros -> ->. ring.
Qed.

Lemma const_mul x y : is_const x -> is_const y -> is_const (num_mul x y).
Proof.
  unfold is_const. destruct x as [a a'], y as [b b']. cbn. intros -> ->. ring.
Qed.

Lemma const_div x y : is_const x -> is_const y -> is_const (num_div x y).
Proof.
  unfold is_const. destruct x as [a a'], y as [b b']. cbn. intros -> ->.
  unfold Qdiv. ring.
Qed.

Lemma const_sum (l : list (dual Q)) : Forall is_const l -> is_const (num_sum l).
Proof.
  induction 1 as [|x l Hx _ IH]; cbn [num_sum].
  - apply const_of_Z.
  - by apply const_add.
Qed.

Lemma const_mean (l : list (dual Q)) : Forall is_const l -> is_const (np_mean l).
Proof.
  intros Hl. unfold np_mean. apply const_div; [by apply const_sum|].
  apply const_of_Z.
Qed.

Lemma const_zip_mul (l1 l2 : list (dual Q)) :
  Forall is_const l1 -> Forall is_const l2 ->
  Forall is_const (zip_with num_mul l1 l2).
Proof.
  intros H1. revert l2. induction H1 as [|x l1 Hx _ IH]; intros l2 H2; cbn.
  - constructor.
  - destruct H2 as [|y l2 Hy H2]; constructor; [by apply const_mul | by apply IH].
Qed.

End ConstDual.

Create HintDb dual_const discriminated.
#[export] Hint Resolve const_of_Z const_dual_const const_stop_gradient
  const_add const_mul const_div const_sum const_mean const_zip_mul
  : dual_const.

Section ScopeProps.
Local Open Scope Q_scope.

Lemma prefix_actor_not_critic (v : string) :
  String.prefix "actor" v = true -> String.prefix "critic" v = true -> False.
Proof.
  destruct v as [|c v]; cbn [String.prefix]; [discriminate|].
  intros Ha Hc.
  destruct (Ascii.ascii_dec "a"%char c) as [<-|?]; [|discriminate].
  destruct (Ascii.ascii_dec "c"%char "a"%char); discriminate.
Qed.

Lemma scope_vars_prefix scope gv vars v :
  scope_vars scope gv = Some vars -> v ∈ vars -> String.prefix scope v = true.
Proof.
  unfold scope_vars. intros Hs Hv.
  assert (vars = filter (fun v => String.prefix scope v = true) gv) as ->.
  { destruct (filter _ gv); congruence. }
  by apply list_elem_of_filter in Hv as [? _].
Qed.

Lemma prefix_append (s t : string) : String.prefix s (s +:+ t) = true.
Proof.
  induction s as [|c s IH].
  - change (String.prefix "" t = true). by destruct t.
  - change (String.prefix (String c s) (String c (s +:+ t)) = true).
    cbn [String.prefix].
    destruct (Ascii.ascii_dec c c); [exact IH | congruence].
Qed.

Lemma seed_const_other (st : gmap string (list Q)) v i name vals :
  name <> v -> seed st v i !! name = Some vals -> Forall is_const vals.
Proof.
  intros Hne. unfold seed. rewrite map_lookup_imap.
  destruct (st !! name) as [vals0|]; cbn; [|discriminate].
  intros [= <-]. apply Forall_lookup. intros j x.
  rewrite list_lookup_imap. destruct (vals0 !! j); cbn; [|discriminate].
  intros [= <-]. unfold is_const. cbn.
  rewrite bool_decide_eq_false_2; [reflexivity | tauto].
Qed.

End ScopeProps.

Section GradientProps.
Local Open Scope Q_scope.

Variable mlp :
  string -> list nat -> gmap string (list (dual Q)) -> list (dual Q)
  -> list (dual Q).
Variable sparse_softmax_cross_entropy_with_logits : list (dual Q) -> nat -> dual Q.
Variable layer_sizes : list nat.
Variable act_size : nat.
Variable clip_by_norm : list Q -> Q -> list Q.
Variable Slot : Type.
Variable adam : Q -> list Q -> list Q -> option Slot -> list Q * Slot.

(** The builder returns a row of the width of the last layer. *)
Hypothesis mlp_width :
  forall name sizes st x, length (mlp name sizes st x) = List.last sizes 0%nat.

(** The network built under a scope depends on its input and on the
    variables of that scope only (the two parameter sets "own no
    cross-references"): when none of them varies, neither does its
    output. *)
Hypothesis mlp_scope :
  forall name sizes st x,
    (forall v vals, String.prefix name v = true -> st !! v = Some vals ->
                    Forall is_const vals) ->
    Forall is_const x ->
    Forall is_const (mlp name sizes st x).

(** The cross entropy of logits that do not vary does not vary. *)
Hypothesis cross_entropy_const :
  forall logits a,
    Forall is_const logits ->
    is_const (sparse_softmax_cross_entropy_with_logits logits a).

#[local] Abbreviation the_loss_a :=
  (loss_a mlp sparse_softmax_cross_entropy_with_logits layer_sizes act_size).

Lemma td_errors_defined st rows :
  exists errs, td_errors mlp layer_sizes act_size st rows = Some errs.
Proof using mlp_width.
  unfold td_errors. apply mapM_is_Some, Forall_forall.
  intros [[state a] td_target] _. unfold compose, td_error, pred_q, broadcast_mul.
  pose proof (mlp_width "critic" (layer_sizes ++ [1%nat]) st state) as Hlen.
  rewrite last_last in Hlen. unfold critic.
  destruct (mlp _ _ _ _) as [|v [|? ?]]; try discriminate.
  destruct (_ =? _)%nat; cbn; eauto.
Qed.

Lemma loss_a_const st rows d :
  (forall v vals, String.prefix "actor" v = true -> st !! v = Some vals ->
                  Forall is_const vals) ->
  the_loss_a st (map feed_row rows) = Some d -> is_const d.
Proof using mlp_scope cross_entropy_const.
  intros Hst. unfold loss_a.
  destruct (td_errors _ _ _ _ _) as [errs|]; cbn; [|discriminate].
  intros [= <-]. apply const_mean, const_zip_mul.
  - apply Forall_map, Forall_forall. auto with dual_const.
  - unfold cross_entropies. rewrite <- list_fmap_compose.
    apply Forall_map, Forall_forall. intros [[state a] td_target] _. cbn.
    apply cross_entropy_const. unfold actor. apply mlp_scope; [exact Hst|].
    apply Forall_map, Forall_forall. intros. apply const_dual_const.
Qed.

Lemma apply_gradients_frame lr grads
    (s : gmap string (list Q) * gmap string Slot) v :
  v ∉ map snd grads ->
  (apply_gradients adam lr grads s).1 !! v = s.1 !! v.
Proof.
  unfold apply_gradients. revert s.
  induction grads as [|[g u] grads IH]; intros s Hv; [done|].
  cbn [foldl]. rewrite IH.
  - cbn. destruct (s.1 !! u); [|done].
    destruct (adam _ _ _ _) as [x' slot']. cbn.
    apply lookup_insert_ne. intros ->. apply Hv. cbn. left.
  - intros Hin. apply Hv. cbn. by right.
Qed.

Lemma compute_gradients_vars loss vars st rows grads :
  compute_gradients loss vars st rows = Some grads -> map snd grads = vars.
Proof.
  unfold compute_gradients. intros Hm%mapM_Some.
  induction Hm as [|v [g u] vars grads Hv _ IH]; [done|].
  cbn. rewrite IH. f_equal.
  destruct (tf_gradients _ _ _ _); cbn in Hv; congruence.
Qed.

Lemma clip_gradients_vars c (grads : list (list Q * string)) :
  map snd (clip_gradients clip_by_norm c grads) = map snd grads.
Proof.
  unfold clip_gradients. destruct c as [c|]; [|done].
  destruct (Qeq_bool c 0); [done|].
  rewrite <- list_fmap_compose. by apply list_fmap_ext.
Qed.

Lemma mapM_all {A B} (f : A -> option B) (P : B -> Prop) (l : list A) :
  (forall x, exists y, f x = Some y /\ P y) ->
  exists ys, mapM f l = Some ys /\ Forall P ys.
Proof.
  intros Hf. induction l as [|x l (ys & Hys & HP)]; [by exists []|].
  destruct (Hf x) as (y & Hy & HPy). exists (y :: ys).
  split; [|by constructor]. cbn. rewrite Hy. cbn. rewrite Hys. done.
Qed.

Lemma loss_a_partial_zero st rows v i :
  String.prefix "critic" v = true ->
  exists g, partial_derivative the_loss_a st rows v i = Some g /\ g == 0.
Proof using mlp_width mlp_scope cross_entropy_const.
  intros Hv. unfold partial_derivative.
  destruct (td_errors_defined (seed st v i) (map feed_row rows)) as (errs & Herrs).
  destruct (the_loss_a (seed st v i) (map feed_row rows)) as [d|] eqn:Hd.
  - exists d.2. split; [done|]. eapply loss_a_const; [|exact Hd].
    intros name vals Hname. apply seed_const_other.
    intros ->. by eapply prefix_actor_not_critic.
  - unfold loss_a in Hd. rewrite Herrs in Hd. discriminate.
Qed.

(** C5: the variables collected for the actor and for the critic are
    disjoint; every partial derivative of the actor loss with respect to a
    component of a critic variable is defined and zero, for every store and
    every batch; the training operation of the actor leaves the value of
    every critic variable as it was; and after the fused step a critic
    variable has the value that the critic's own operation gives it. *)
Theorem actor_loss_stops_at_critic
    mlp_variables global_variables actor_vars critic_vars :
  build_vars mlp_variables global_variables layer_sizes act_size
    = Some (actor_vars, critic_vars) ->
  (forall v, v ∈ actor_vars -> v ∉ critic_vars) /\
  (forall st rows v i,
     v ∈ critic_vars ->
     exists g, partial_derivative the_loss_a st rows v i = Some g /\ g == 0) /\
  (forall st rows v,
     v ∈ critic_vars ->
     exists g, tf_gradients the_loss_a st rows v = Some g /\
               Forall (fun x => x == 0) g) /\
  (forall grad_clip_norm lr rows s s' v,
     v ∈ critic_vars ->
     train_op_a mlp sparse_softmax_cross_entropy_with_logits layer_sizes
       act_size clip_by_norm adam actor_vars grad_clip_norm lr rows s = Some s' ->
     s'.1 !! v = s.1 !! v) /\
  (forall grad_clip_norm lr_c lr_a rows vars slots_c slots_a s' v,
     v ∈ critic_vars ->
     train_ops mlp sparse_softmax_cross_entropy_with_logits layer_sizes
       act_size clip_by_norm adam actor_vars critic_vars grad_clip_norm
       lr_c lr_a rows (vars, slots_c, slots_a) = Some s' ->
     exists s1,
       train_op_c mlp layer_sizes act_size clip_by_norm adam critic_vars
         grad_clip_norm lr_c rows (vars, slots_c) = Some s1 /\
       s'.1.1 !! v = s1.1 !! v).
Proof using mlp_width mlp_scope cross_entropy_const.
  unfold build_vars. intros Hb.
  destruct (scope_vars "actor" _) as [av|] eqn:Ha; cbn in Hb; [|discriminate].
  destruct (scope_vars "critic" _) as [cv|] eqn:Hc; cbn in Hb; [|discriminate].
  injection Hb as <- <-.
  assert (Hsep : forall v, v ∈ av -> v ∉ cv).
  { intros v Hva Hvc. eapply prefix_actor_not_critic.
    - eapply scope_vars_prefix; [exact Ha | exact Hva].
    - eapply scope_vars_prefix; [exact Hc | exact Hvc]. }
  split; [exact Hsep|]. split; [|split; [|split]].
  - intros st rows v i Hv. apply loss_a_partial_zero.
    eapply scope_vars_prefix; [exact Hc | exact Hv].
  - intros st rows v Hv. unfold tf_gradients. apply mapM_all.
    intros i. apply loss_a_partial_zero.
    eapply scope_vars_prefix; [exact Hc | exact Hv].
  - intros c lr rows s s' v Hv. unfold train_op_a.
    destruct (compute_gradients _ _ _ _) as [grads|] eqn:Hg; cbn; [|discriminate].
    intros [= <-]. apply apply_gradients_frame.
    rewrite clip_gradients_vars, (compute_gradients_vars _ _ _ _ Hg).
    intros Hin. by apply (Hsep v).
  - intros c lr_c lr_a rows vars slots_c slots_a s' v Hv.
    unfold train_ops, train_op_c. cbn [fst snd].
    destruct (compute_gradients (loss_c _ _ _) _ _ _) as [grads_c|];
      cbn; [|discriminate].
    destruct (compute_gradients (loss_a _ _ _ _) _ _ _) as [grads_a|] eqn:Hg;
      cbn; [|discriminate].
    intros [= <-]. eexists. split; [reflexivity|]. cbn [fst snd].
    rewrite apply_gradients_frame; [reflexivity|].
    rewrite clip_gradients_vars, (compute_gradients_vars _ _ _ _ Hg).
    intros Hin. by apply (Hsep v).
Qed.

End GradientProps.

Section ToyGraph.
Local Open Scope Q_scope.

Lemma toy_mlp_scope name sizes (st : gmap string (list (dual Q))) x :
  (forall v vals, String.prefix name v = true -> st !! v = Some vals ->
                  Forall is_const vals) ->
  Forall is_const x ->
  Forall is_const (toy_mlp name sizes st x).
Proof.
  intros Hst Hx. unfold toy_mlp. apply Forall_replicate.
  assert (Hw : Forall is_const (default [] (st !! (name +:+ "/w")))).
  { destruct (st !! (name +:+ "/w")) as [vals|] eqn:Hw; cbn; [|constructor].
    eapply Hst; [apply prefix_append | exact Hw]. }
  auto with dual_const.
Qed.

Lemma toy_cross_entropy_const (logits : list (dual Q)) a :
  Forall is_const logits -> is_const (toy_cross_entropy logits a).
Proof.
  intros Hl. unfold toy_cross_entropy. revert a.
  induction Hl as [|x l Hx _ IH]; intros [|a]; cbn [nth];
    try apply const_of_Z; [exact Hx | apply IH].
Qed.

End ToyGraph.

Lemma actor_loss_stops_at_critic_witness :
  partial_derivative (loss_c toy_mlp [64%nat] 2) toy_store toy_rows "critic/w" 0
    = Some (12 # 4)%Q /\
  ((forall v, v ∈ ["actor/w"] -> v ∉ ["critic/w"]) /\
   (forall st rows v i,
      v ∈ ["critic/w"] ->
      exists g,
        partial_derivative (loss_a toy_mlp toy_cross_entropy [64%nat] 2)
          st rows v i = Some g /\ (g == 0)%Q) /\
   (forall st rows v,
      v ∈ ["critic/w"] ->
      exists g,
        tf_gradients (loss_a toy_mlp toy_cross_entropy [64%nat] 2) st rows v
          = Some g /\ Forall (fun x => (x == 0)%Q) g) /\
   (forall grad_clip_norm lr rows s s' v,
      v ∈ ["critic/w"] ->
      train_op_a toy_mlp toy_cross_entropy [64%nat] 2 toy_clip toy_adam
        ["actor/w"] grad_clip_norm lr rows s = Some s' ->
      s'.1 !! v = s.1 !! v) /\
   (forall grad_clip_norm lr_c lr_a rows vars slots_c slots_a s' v,
      v ∈ ["critic/w"] ->
      train_ops toy_mlp toy_cross_entropy [64%nat] 2 toy_clip toy_adam
        ["actor/w"] ["critic/w"] grad_clip_norm lr_c lr_a rows
        (vars, slots_c, slots_a) = Some s' ->
      exists s1,
        train_op_c toy_mlp [64%nat] 2 toy_clip toy_adam ["critic/w"]
          grad_clip_norm lr_c rows (vars, slots_c) = Some s1 /\
        s'.1.1 !! v = s1.1 !! v)).
Proof.
  split; [vm_compute; reflexivity|].
  apply (@actor_loss_stops_at_critic toy_mlp toy_cross_entropy [64%nat] 2%nat
           toy_clip unit toy_adam
           (fun name sizes st x => toy_mlp_width name sizes st x)
           toy_mlp_scope toy_cross_entropy_const
           toy_mlp_variables ["global_step"] ["actor/w"] ["critic/w"]).
  vm_compute. reflexivity.
Defined.

(** ** The loop returns

    When every episode of the environment ends, the critic returns a
    non-empty row and batches are not empty, enough fuel makes [train]
    return. *)

Section Returns.
Context {R : Type} {num : Num R} {collab : Collab R}.
Variable self : Policy R.

(** A bound on the steps an episode can still take. *)
Variable mu : Env -> nat.
Hypothesis mu_sample : forall e, mu (action_space_sample e).2 = mu e.
Hypothesis mu_step :
  forall a e, (env_step a e).1.2 = true \/ (mu (env_step a e).2 < mu e)%nat.
Hypothesis critic_row_nonempty : forall theta ob, critic_eval theta ob <> [].
Hypothesis batch_size_positive : (0 < batch_size self)%nat.

Lemma drain_returns fuel tv w :
  (ReplayMemory.size (w_memory w) < fuel)%nat ->
  (drain self fuel tv w).1 = Done tt /\
  w_env (drain self fuel tv w).2 = w_env w.
Proof using batch_size_positive.
  revert w. induction fuel as [|fuel IH]; intros w Hsize; [lia|].
  rewrite drain_unfold.
  destruct (Nat.leb_spec (batch_size self) (ReplayMemory.size (w_memory w)));
    [|done].
  cbn zeta.
  match goal with |- context [drain self fuel tv ?w1] =>
    destruct (IH w1) as (Hd & He) end.
  - cbn. unfold ReplayMemory.size in *. rewrite length_drop. lia.
  - split; [exact Hd|]. rewrite He. reflexivity.
Qed.

Lemma act_core_keeps_bound theta state epsilon rng env :
  mu (act_core self theta state epsilon rng env).2 = mu env.
Proof using mu_sample.
  unfold act_core, act_infer.
  destruct (training self).
  - destruct (np_random_random rng) as [u rng1].
    destruct (num_ltb u epsilon).
    + pose proof (mu_sample env) as Hs.
      by destruct (action_space_sample env) as [a env1].
    + by destruct (np_random_choice _ _ rng1) as [a rng2].
  - by destruct (np_random_choice _ _ rng) as [a rng2].
Qed.

Lemma step_loop_returns fuel dfuel tv ev w :
  (mu (w_env w) < fuel)%nat ->
  (ReplayMemory.size (w_memory w) + 1 < dfuel)%nat ->
  (batch_size self < dfuel)%nat ->
  exists tv1 ev1, (step_loop self fuel dfuel tv ev w).1 = Done (tv1, ev1).
Proof using mu_sample mu_step critic_row_nonempty batch_size_positive.
  revert tv ev w. induction fuel as [|fuel IH]; intros tv ev w Hmu Hsize Hb; [lia|].
  cbn [step_loop]. unfold mbind, M_bind, bind.
  pose proof (step_body_leftover self dfuel tv ev w) as Hleft.
  rewrite step_body_unfold in *.
  pose proof (act_core_keeps_bound (w_sess w) (ev_ob ev) (tv_eps tv)
                (w_rng w) (w_env w)) as Hact.
  destruct (act_core _ _ _ _ _ _) as [[[a tr] rng1] env1]. cbn [snd] in Hact.
  pose proof (mu_step a env1) as Hstep.
  destruct (env_step a env1) as [[[ob_next r] done] env2]. cbn [fst snd] in Hstep.
  cbn zeta in *.
  destruct (critic_eval (w_sess w) ob_next) as [|v row] eqn:Hrow;
    [by apply critic_row_nonempty in Hrow|].
  match goal with |- context [drain self dfuel ?tv1 ?w4] =>
    destruct (@drain_returns dfuel tv1 w4) as (Hd & He);
    [ cbn; unfold ReplayMemory.size, ReplayMemory.add in *;
      rewrite length_app; cbn; lia | ];
    destruct (drain self dfuel tv1 w4) as [[[]| |] w5] end;
    cbn [fst snd] in *; try discriminate.
  destruct done; [eauto|].
  apply IH; [|specialize (Hleft _ eq_refl); lia|exact Hb].
  rewrite He. cbn. destruct Hstep as [?|?]; [discriminate | lia].
Qed.

Lemma episodes_return fuel eps_drop n tv w :
  (forall e, mu (env_reset e).2 < fuel)%nat ->
  (ReplayMemory.size (w_memory w) + 1 < fuel)%nat ->
  (batch_size self < fuel)%nat ->
  exists tv1, (episodes self fuel eps_drop n tv w).1 = Done tv1.
Proof using mu_sample mu_step critic_row_nonempty batch_size_positive.
  intros Hreset. revert tv w. induction n as [|n IH]; intros tv w Hsize Hb.
  - cbn. eauto.
  - cbn [episodes]. unfold mbind, M_bind, bind.
    pose proof (episode_unfold self eps_drop fuel tv w) as Hep.
    pose proof (Hreset (w_env w)) as Hr.
    destruct (env_reset (w_env w)) as [ob env1]. cbn [snd] in Hr.
    pose proof (act_core_keeps_bound (w_sess w) ob act_default_epsilon
                  (w_rng w) env1) as Hact.
    destruct (act_core _ _ _ _ _ _) as [[[a tr] rng2] env2]. cbn [snd] in Hact.
    cbn zeta in Hep.
    match type of Hep with context [step_loop self fuel fuel tv ?ev ?w2] =>
      destruct (@step_loop_returns fuel fuel tv ev w2) as (tv1 & ev1 & Hloop);
      [ cbn; lia | exact Hsize | exact Hb | ];
      pose proof (step_loop_leftover self fuel fuel tv ev w2 Hloop) as Hleft;
      destruct (step_loop self fuel fuel tv ev w2) as [out w3] end.
    cbn [fst snd] in *. subst out. rewrite Hep.
    apply IH; [lia | exact Hb].
Qed.

(** With a non-zero annealing length and at least one episode, [train]
    returns when given enough fuel. *)
Lemma train_returns fuel n_episodes annealing_episodes w0 :
  w_log w0 = [] ->
  annealing_or annealing_episodes n_episodes <> 0%Z ->
  (0 < n_episodes)%Z ->
  (forall e, mu (env_reset e).2 < fuel)%nat ->
  (ReplayMemory.size (w_memory w0) + 1 < fuel)%nat ->
  (batch_size self < fuel)%nat ->
  exists tv, (train self fuel n_episodes annealing_episodes w0).1 = Done tv.
Proof using mu_sample mu_step critic_row_nonempty batch_size_positive.
  intros Hlog Hann Hn Hreset Hsize Hb. unfold train.
  destruct (Z.eqb_spec (annealing_or annealing_episodes n_episodes) 0) as [?|_];
    [done|].
  unfold mbind, M_bind, bind.
  set (eps_drop := eps_drop_of (annealing_or annealing_episodes n_episodes)).
  destruct (@episodes_return fuel eps_drop (Z.to_nat n_episodes)
              (initial_vars self) w0 Hreset Hsize Hb) as (tv & Hdone).
  assert (Hok0 : world_ok self (w_sess w0) (w_memory w0) eps_drop w0).
  { unfold world_ok. rewrite Hlog. cbn. done. }
  destruct (episodes_spec fuel (Z.to_nat n_episodes) (initial_vars self) Hok0)
    as (_ & _ & _ & Hvars).
  { rewrite Hlog. reflexivity. }
  destruct (Hvars _ Hdone) as (_ & _ & _ & _ & Hlen).
  destruct (episodes self fuel eps_drop (Z.to_nat n_episodes) (initial_vars self) w0)
    as [out w1]. cbn [fst snd] in *. subst out. unfold emit.
  destruct (tv_reward_history tv); cbn in *; [lia | eauto].
Qed.

End Returns.

(** The small world meets the conditions: its episodes take three steps. *)
Lemma toy_train_returns (n_episodes : Z) (fuel : nat) :
  (0 < n_episodes)%Z -> (3 < fuel)%nat ->
  exists tv,
    (@train Q Num_Q toy_collab (toy_policy 2) fuel n_episodes None toy_world).1
    = Done tv.
Proof.
  intros Hn Hfuel.
  apply (@train_returns Q Num_Q toy_collab (toy_policy 2)
           (fun e : nat * nat => (3 - e.2)%nat)).
  - reflexivity.
  - intros a e.
    change ((3 <=? S e.2)%nat = true \/ (3 - S e.2 < 3 - e.2)%nat).
    destruct (Nat.leb_spec 3 (S e.2)); [by left | right; lia].
  - discriminate.
  - cbn. lia.
  - reflexivity.
  - cbn. lia.
  - exact Hn.
  - intros e. cbn. lia.
  - cbn. lia.
  - cbn. lia.
Qed.

(** ** Observations and the width of the state input *)

Section ObservationProps.
Context {R : Type}.

(** X2: for a sample whose shape accounts for its elements, [obs_size] is
    the product of the dimensions, and the inputs made of every observation
    of that shape have exactly this width; the index [shape[0]] is never out
    of range. *)
Theorem obs_size_is_input_width (sample ob : ndarray R) :
  well_formed sample ->
  well_formed ob ->
  nd_shape ob = nd_shape sample ->
  obs_size sample = inr (foldr Nat.mul 1%nat (nd_shape sample)) /\
  nd_shape (obs_to_inputs ob) = [foldr Nat.mul 1%nat (nd_shape sample)].
Proof.
  unfold well_formed, obs_size, obs_to_inputs, flatten. cbn.
  intros Hs Ho Heq. rewrite Hs, Ho, Heq. done.
Qed.

End ObservationProps.

Lemma obs_size_is_input_width_witness :
  obs_size (toy_ob (R := Q) 1 0) = inr 2%nat /\
  nd_shape (obs_to_inputs (toy_ob (R := Q) 1 2)) = [2%nat].
Proof.
  apply (@obs_size_is_input_width Q (toy_ob 1 0) (toy_ob 1 2));
    reflexivity.
Defined.

(** ** Sampling an index *)

Section SampleProps.

Lemma argmax_from_after (i : nat) n s best_index :
  (i < s)%nat ->
  argmax_from best_index 1 s
    (map (fun j => if (j =? i)%nat then 1%nat else 0%nat) (seq s n)) = best_index.
Proof.
  revert s. induction n as [|n IH]; intros s Hlt; [done|].
  cbn [seq map argmax_from].
  destruct (Nat.eqb_spec s i) as [->|_]; [lia|].
  cbn. apply IH. lia.
Qed.

Lemma argmax_from_before (i : nat) n s best_index :
  (s <= i < s + n)%nat ->
  argmax_from best_index 0 s
    (map (fun j => if (j =? i)%nat then 1%nat else 0%nat) (seq s n)) = i.
Proof.
  revert s best_index. induction n as [|n IH]; intros s best_index Hlt; [lia|].
  cbn [seq map argmax_from].
  destruct (Nat.eqb_spec s i) as [->|Hne].
  - cbn. apply argmax_from_after. lia.
  - cbn. apply IH. lia.
Qed.

Lemma np_argmax_one_draw (i n : nat) :
  (i < n)%nat -> np_argmax (one_draw i n) = inr i.
Proof.
  intros Hlt. destruct n as [|n]; [lia|].
  unfold one_draw, np_argmax. cbn [seq map].
  destruct (Nat.eqb_spec 0 i) as [<-|Hne].
  - by rewrite argmax_from_after by lia.
  - rewrite argmax_from_before by lia. done.
Qed.

Lemma sum_scaled (l : list Q) (s : Q) :
  num_sum (map (fun e => num_div e s) l) == num_sum l / s.
Proof.
  induction l as [|x l IH]; cbn.
  - unfold Qdiv. ring.
  - rewrite IH. unfold Qdiv. ring.
Qed.

Context {R : Type} {num : Num R}.
Variable np_log : R -> R.
Variable np_exp : R -> R.
Variable SampleRng : Type.
Variable np_random_multinomial : list R -> SampleRng -> list nat * SampleRng.

(** X3: when the draw falls in category [i], [sample] returns [i] and
    leaves the generator as the draw left it. *)
Theorem sample_returns_drawn_index preds temperature rng (i n : nat) rng' :
  np_random_multinomial (sample_weights np_log np_exp preds temperature) rng
    = (one_draw i n, rng') ->
  (i < n)%nat ->
  sample np_log np_exp np_random_multinomial preds temperature rng = (inr i, rng').
Proof.
  intros Hdraw Hlt. unfold sample. rewrite Hdraw.
  by rewrite np_argmax_one_draw.
Qed.

End SampleProps.

Lemma sample_returns_drawn_index_witness :
  sample (R := Q) (fun x => x) (fun x => x)
    (fun p (k : nat) => (one_draw (k mod length p) (length p), S k))
    [1 # 4; 3 # 4]%Q 1%Q 5%nat = (inr 1%nat, 6%nat).
Proof.
  apply (@sample_returns_drawn_index Q Num_Q (fun x => x) (fun x => x) nat
           (fun p (k : nat) => (one_draw (k mod length p) (length p), S k))
           [1 # 4; 3 # 4]%Q 1%Q 5%nat 1%nat 2%nat 6%nat);
    [reflexivity | lia].
Defined.

(** X4: in exact arithmetic, for positive predictions and a temperature
    that is not zero (where the logarithms and the quotient by the
    temperature are finite), the weights [sample] hands to the draw have as
    many entries as [preds] and sum to one, as long as the exponentials do
    not sum to zero. *)
Theorem sample_weights_sum_to_one (np_log np_exp : Q -> Q) (preds : list Q)
    (temperature : Q) :
  ~ temperature == 0 ->
  Forall (fun p => (0 < p)%Q) preds ->
  ~ num_sum (map np_exp (map (fun p => num_div (np_log p) temperature) preds)) == 0 ->
  length (sample_weights np_log np_exp preds temperature) = length preds /\
  num_sum (sample_weights np_log np_exp preds temperature) == 1.
Proof.
  intros _ _ Hnz. unfold sample_weights. split.
  - by rewrite !length_map.
  - rewrite sum_scaled. by field.
Qed.

Lemma sample_weights_sum_to_one_witness :
  length (sample_weights (fun x => x) (fun x => x) [1; 3]%Q 2%Q) = 2%nat /\
  num_sum (sample_weights (fun x => x) (fun x => x) [1; 3]%Q 2%Q) == 1.
Proof.
  apply (@sample_weights_sum_to_one (fun x => x) (fun x => x) [1; 3]%Q 2%Q).
  - vm_compute. discriminate.
  - repeat constructor.
  - vm_compute. discriminate.
Defined.

(** ** The masked sum and the critic loss in exact arithmetic *)

Section CriticLossProps.
Local Open Scope Q_scope.

Lemma sum_squares_nonneg (l : list Q) :
  0 <= num_sum (map (fun e => num_mul e e) l).
Proof.
  induction l as [|x l IH]; cbn; [apply Qle_refl|].
  change 0 with (0 + 0). apply Qplus_le_compat; [|exact IH].
  change (0 <= x * x). nra.
Qed.

Lemma mean_nonneg (l : list Q) : 0 <= num_sum l -> 0 <= np_mean l.
Proof.
  intros Hs. unfold np_mean. cbn. unfold Qdiv.
  apply Qmult_le_0_compat; [exact Hs|].
  apply Qinv_le_0_compat.
  change 0 with (inject_Z 0). rewrite <- Zle_Qle. lia.
Qed.

Variable mlp : string -> list nat -> gmap string (list Q) -> list Q -> list Q.
Variable layer_sizes : list nat.
Variable act_size : nat.

Hypothesis mlp_width :
  forall name sizes st x, length (mlp name sizes st x) = List.last sizes 0%nat.

(** X5: a fed action outside [0, act_size) selects nothing: the one-hot row
    is all zeros, the masked sum [pred_q] is zero, and the TD error of the
    row is the absolute value of its target, whatever the critic says. *)
Theorem td_error_of_unknown_action st state a td_target :
  (act_size <= a)%nat ->
  exists q e,
    pred_q mlp layer_sizes act_size st (state, a, td_target) = Some q /\
    q == 0 /\
    td_error mlp layer_sizes act_size st (state, a, td_target) = Some e /\
    e == Qabs td_target.
Proof using mlp_width.
  intros Ha. destruct (critic_single mlp layer_sizes mlp_width st state) as (v & Hv).
  assert (Hq : exists q,
    pred_q mlp layer_sizes act_size st (state, a, td_target) = Some q /\ q == 0).
  { unfold pred_q, broadcast_mul, action_ohe, one_hot. rewrite Hv.
    rewrite length_map, length_seq. cbn [length].
    destruct (Nat.eqb_spec 1 act_size) as [<-|Hne].
    - destruct a as [|a]; [lia|]. cbn. eexists; split; [reflexivity|]. ring.
    - eexists; split; [reflexivity|].
      rewrite sum_scaled_one_hot.
      replace (a <? 0 + act_size)%nat with false; [by rewrite andb_false_r|].
      symmetry. apply Nat.ltb_ge. lia. }
  destruct Hq as (q & Hq & Hq0).
  exists q, (Qabs (td_target - q)). repeat split; try done.
  - unfold td_error. rewrite Hq. reflexivity.
  - rewrite Hq0. apply Qabs_wd. ring.
Qed.

(** X6: in exact arithmetic, for every store and every batch of at least
    one row the TD errors are defined, one per row and none negative, and
    the critic loss is defined, not negative, and the mean of the squared
    errors: times the number of rows it is their sum.  (Of an empty batch
    the mean is a quotient by zero.) *)
Theorem critic_loss_defined_nonneg st (rows : list (Row (D := Q))) :
  rows <> [] ->
  exists errs l,
    td_errors mlp layer_sizes act_size st rows = Some errs /\
    length errs = length rows /\
    Forall (fun e => 0 <= e) errs /\
    loss_c mlp layer_sizes act_size st rows = Some l /\
    l * inject_Z (Z.of_nat (length rows))
      == num_sum (map (fun e => num_mul e e) errs) /\
    0 <= l.
Proof using mlp_width.
  intros Hrows.
  assert (Herrs : exists errs,
    td_errors mlp layer_sizes act_size st rows = Some errs /\
    Forall (fun e => 0 <= e) errs).
  { unfold td_errors. apply mapM_all. intros [[state a] td_target].
    unfold td_error, pred_q, broadcast_mul.
    destruct (critic_single mlp layer_sizes mlp_width st state) as (v & ->).
    destruct (_ =? _)%nat; cbn [fmap option_fmap option_map]; eexists;
      (split; [reflexivity|]); apply Qabs_nonneg. }
  destruct Herrs as (errs & He & Hpos).
  assert (Hlen : length errs = length rows).
  { unfold td_errors in He. apply mapM_Some in He.
    symmetry. by eapply Forall2_length. }
  exists errs, (np_mean (map (fun e => num_mul e e) errs)).
  split; [done|]. split; [done|]. split; [done|].
  split; [unfold loss_c; rewrite He; reflexivity|].
  split; [|apply mean_nonneg, sum_squares_nonneg].
  unfold np_mean. rewrite length_map, Hlen. cbn [num_div num_of_Z Num_Q].
  field. apply inject_Z_nonzero.
  destruct rows; [done | cbn; lia].
Qed.

End CriticLossProps.

Lemma td_error_of_unknown_action_witness :
  exists q e,
    pred_q toy_mlp [64%nat] 2 toy_store ([1%Q; 2%Q], 2%nat, (-5)%Q) = Some q /\
    (q == 0)%Q /\
    td_error toy_mlp [64%nat] 2 toy_store ([1%Q; 2%Q], 2%nat, (-5)%Q) = Some e /\
    (e == Qabs (-5))%Q.
Proof.
  apply (@td_error_of_unknown_action toy_mlp [64%nat] 2%nat
           (fun name sizes st x => toy_mlp_width name sizes st x)
           toy_store [1%Q; 2%Q] 2%nat (-5)%Q).
  lia.
Defined.

Lemma critic_loss_defined_nonneg_witness :
  exists errs l,
    td_errors toy_mlp [64%nat] 2 toy_store toy_rows = Some errs /\
    length errs = length toy_rows /\
    Forall (fun e => (0 <= e)%Q) errs /\
    loss_c toy_mlp [64%nat] 2 toy_store toy_rows = Some l /\
    (l * inject_Z (Z.of_nat (length toy_rows))
       == num_sum (map (fun e => num_mul e e) errs))%Q /\
    (0 <= l)%Q.
Proof.
  apply (@critic_loss_defined_nonneg toy_mlp [64%nat] 2%nat
           (fun name sizes st x => toy_mlp_width name sizes st x)
           toy_store toy_rows).
  discriminate.
Defined.

(** ** Collecting the variables of a scope *)

Section CollectionProps.

Lemma scope_vars_filter scope gv vars :
  scope_vars scope gv = Some vars ->
  vars = filter (fun v => String.prefix scope v = true) gv.
Proof. unfold scope_vars. destruct (filter _ gv); congruence. Qed.

Lemma scope_vars_found scope gv v :
  v ∈ gv -> String.prefix scope v = true ->
  exists vars, scope_vars scope gv = Some vars.
Proof.
  intros Hin Hp. unfold scope_vars.
  destruct (filter _ gv) as [|u vars] eqn:Hf; [|eauto].
  assert (Hv : v ∈ filter (fun v => String.prefix scope v = true) gv)
    by (apply list_elem_of_filter; done).
  rewrite Hf in Hv. by apply elem_of_nil in Hv.
Qed.

Lemma scope_vars_none scope gv :
  scope_vars scope gv = None <->
  forall v, v ∈ gv -> String.prefix scope v = false.
Proof.
  split.
  - intros Hnone v Hin.
    destruct (String.prefix scope v) eqn:Hp; [|done].
    destruct (scope_vars_found scope Hin Hp) as (vars & Hs). congruence.
  - intros Hall. unfold scope_vars.
    destruct (filter _ gv) as [|u vars] eqn:Hf; [done|].
    assert (Hu : u ∈ filter (fun v => String.prefix scope v = true) gv)
      by (rewrite Hf; left).
    apply list_elem_of_filter in Hu as [Hp Hin].
    rewrite (Hall u Hin) in Hp. discriminate.
Qed.

(** X7: [build] fails one of its two assertions exactly when no variable
    that exists once the actor is built has a name beginning with [actor],
    or none that exists once the critic is built has a name beginning with
    [critic]; a variable named under [actor] that only the builder of the
    critic creates comes too late for the first assertion. *)
Theorem build_fails_without_scope_variables
    (mlp_variables : string -> list nat -> list string)
    (gv : list string) (layer_sizes : list nat) (act_size : nat) :
  build_vars mlp_variables gv layer_sizes act_size = None <->
  (forall v, v ∈ gv ++ mlp_variables "actor" (layer_sizes ++ [act_size]) ->
             String.prefix "actor" v = false) \/
  (forall v, v ∈ (gv ++ mlp_variables "actor" (layer_sizes ++ [act_size]))
                 ++ mlp_variables "critic" (layer_sizes ++ [1%nat]) ->
             String.prefix "critic" v = false).
Proof.
  unfold build_vars. rewrite <- !scope_vars_none.
  destruct (scope_vars "actor" _) as [av|]; cbn.
  - destruct (scope_vars "critic" _) as [cv|]; cbn.
    + split; [discriminate | intros [?|?]; discriminate].
    + split; [by right | done].
  - split; [by left | done].
Qed.

(** X8: when the network builder creates at least one variable under each
    of the scopes [actor] and [critic], [build] collects both sets: the
    actor set holds every variable named under [actor] that existed or was
    created for the actor, and none created later for the critic; the
    critic set holds every variable named under [critic] that exists once
    the critic is built. *)
Theorem build_collects_created_variables
    (mlp_variables : string -> list nat -> list string)
    (gv : list string) (layer_sizes : list nat) (act_size : nat) :
  (exists v, v ∈ mlp_variables "actor" (layer_sizes ++ [act_size]) /\
             String.prefix "actor" v = true) ->
  (exists v, v ∈ mlp_variables "critic" (layer_sizes ++ [1%nat]) /\
             String.prefix "critic" v = true) ->
  exists actor_vars critic_vars,
    build_vars mlp_variables gv layer_sizes act_size
      = Some (actor_vars, critic_vars) /\
    (forall v, v ∈ actor_vars <->
       (v ∈ gv \/ v ∈ mlp_variables "actor" (layer_sizes ++ [act_size])) /\
       String.prefix "actor" v = true) /\
    (forall v, v ∈ critic_vars <->
       (v ∈ gv \/ v ∈ mlp_variables "actor" (layer_sizes ++ [act_size]) \/
        v ∈ mlp_variables "critic" (layer_sizes ++ [1%nat])) /\
       String.prefix "critic" v = true).
Proof.
  intros (va & Hva & Hpa) (vc & Hvc & Hpc). unfold build_vars.
  destruct (scope_vars_found "actor"
              (gv := gv ++ mlp_variables "actor" (layer_sizes ++ [act_size]))
              (v := va)) as (av & Ha);
    [apply elem_of_app; by right | done |].
  destruct (scope_vars_found "critic"
              (gv := (gv ++ mlp_variables "actor" (layer_sizes ++ [act_size]))
                     ++ mlp_variables "critic" (layer_sizes ++ [1%nat]))
              (v := vc)) as (cv & Hc);
    [apply elem_of_app; by right | done |].
  rewrite Ha. cbn. rewrite Hc. cbn. exists av, cv. split; [done|].
  rewrite (scope_vars_filter _ _ Ha), (scope_vars_filter _ _ Hc).
  split; intros v; rewrite list_elem_of_filter, !elem_of_app; tauto.
Qed.

End CollectionProps.

Lemma build_collects_created_variables_witness :
  exists actor_vars critic_vars,
    build_vars toy_mlp_variables ["actor_old"; "global_step"] [64%nat] 2
      = Some (actor_vars, critic_vars) /\
    (forall v, v ∈ actor_vars <->
       (v ∈ ["actor_old"; "global_step"] \/
        v ∈ toy_mlp_variables "actor" ([64%nat] ++ [2%nat])) /\
       String.prefix "actor" v = true) /\
    (forall v, v ∈ critic_vars <->
       (v ∈ ["actor_old"; "global_step"] \/
        v ∈ toy_mlp_variables "actor" ([64%nat] ++ [2%nat]) \/
        v ∈ toy_mlp_variables "critic" ([64%nat] ++ [1%nat])) /\
       String.prefix "critic" v = true).
Proof.
  apply (@build_collects_created_variables toy_mlp_variables
           ["actor_old"; "global_step"] [64%nat] 2%nat).
  - exists "actor/w". split; [left | reflexivity].
  - exists "critic/w". split; [left | reflexivity].
Defined.

Lemma build_fails_without_scope_variables_witness :
  build_vars
    (fun name _ =>
       if String.eqb name "critic" then ["critic/w"; "actor/late"] else ["pi/w"])
    ["global_step"] [64%nat] 2 = None.
Proof.
  apply (proj2 (build_fails_without_scope_variables
                  (fun name _ =>
                     if String.eqb name "critic"
                     then ["critic/w"; "actor/late"] else ["pi/w"])
                  ["global_step"] [64%nat] 2%nat)).
  left. intros v Hv. cbn in Hv.
  apply elem_of_cons in Hv as [->|Hv]; [reflexivity|].
  apply elem_of_cons in Hv as [->|Hv]; [reflexivity|].
  by apply elem_of_nil in Hv.
Defined.

(** ** The critic loss does not reach the actor *)

Section ConstDualMore.
Local Open Scope Q_scope.
Implicit Types x y : dual Q.

Lemma const_sub x y : is_const x -> is_const y -> is_const (num_sub x y).
Proof.
  unfold is_const. destruct x as [a a'], y as [b b']. cbn. intros -> ->. ring.
Qed.

Lemma const_abs x : is_const x -> is_const (num_abs x).
Proof.
  unfold is_const. destruct x as [a a']. cbn [num_abs Num_dual dual_abs fst snd].
  intros Ha. destruct (num_ltb _ _); [exact Ha|].
  destruct (num_ltb _ _); [|reflexivity].
  cbn. rewrite Ha. ring.
Qed.

Lemma const_one_hot (a n : nat) :
  Forall is_const (action_ohe (D := dual Q) n a).
Proof.
  unfold action_ohe, one_hot. apply Forall_map, Forall_forall. intros i _.
  destruct (_ =? _)%nat; apply const_of_Z.
Qed.

Lemma const_broadcast_mul (l1 l2 r : list (dual Q)) :
  Forall is_const l1 -> Forall is_const l2 ->
  broadcast_mul l1 l2 = Some r -> Forall is_const r.
Proof.
  intros H1 H2. unfold broadcast_mul.
  destruct (_ =? _)%nat; [intros [= <-]; by apply const_zip_mul|].
  assert (Hl : forall x, is_const x -> Forall is_const (map (num_mul x) l2)).
  { intros x Hx. apply Forall_map. eapply Forall_impl; [exact H2|].
    intros y Hy. by apply const_mul. }
  assert (Hr : forall y, is_const y ->
                 Forall is_const (map (fun xi => num_mul xi y) l1)).
  { intros y Hy. apply Forall_map. eapply Forall_impl; [exact H1|].
    intros x Hx. by apply const_mul. }
  destruct l1 as [|x0 [|x1 l1]].
  - destruct l2 as [|y0 [|y1 l2]]; try discriminate. intros [= <-]. constructor.
  - intros [= <-]. apply Hl. by inversion H1.
  - destruct l2 as [|y0 [|y1 l2]]; try discriminate. intros [= <-].
    apply Hr. by inversion H2.
Qed.

End ConstDualMore.

Section CriticGradientProps.
Local Open Scope Q_scope.

Variable mlp :
  string -> list nat -> gmap string (list (dual Q)) -> list (dual Q)
  -> list (dual Q).
Variable sparse_softmax_cross_entropy_with_logits : list (dual Q) -> nat -> dual Q.
Variable layer_sizes : list nat.
Variable act_size : nat.
Variable clip_by_norm : list Q -> Q -> list Q.
Variable Slot : Type.
Variable adam : Q -> list Q -> list Q -> option Slot -> list Q * Slot.

Hypothesis mlp_width :
  forall name sizes st x, length (mlp name sizes st x) = List.last sizes 0%nat.

Hypothesis mlp_scope :
  forall name sizes st x,
    (forall v vals, String.prefix name v = true -> st !! v = Some vals ->
                    Forall is_const vals) ->
    Forall is_const x ->
    Forall is_const (mlp name sizes st x).

#[local] Abbreviation the_loss_c := (loss_c mlp layer_sizes act_size).

Lemma td_error_const st row e :
  (forall v vals, String.prefix "critic" v = true -> st !! v = Some vals ->
                  Forall is_const vals) ->
  td_error mlp layer_sizes act_size st (feed_row row) = Some e -> is_const e.
Proof using mlp_scope.
  intros Hst. destruct row as [[state a] td_target].
  unfold td_error, pred_q, feed_row.
  destruct (broadcast_mul _ _) as [r|] eqn:Hr;
    cbn [fmap option_fmap option_map]; [|discriminate].
  intros [= <-].
  change (is_const (num_abs (num_sub (dual_const td_target) (num_sum r)))).
  apply const_abs, const_sub; [apply const_dual_const|].
  apply const_sum. eapply const_broadcast_mul; [| |exact Hr].
  - unfold critic. apply mlp_scope; [exact Hst|].
    apply Forall_map, Forall_forall. intros. apply const_dual_const.
  - apply const_one_hot.
Qed.

Lemma loss_c_const st rows d :
  (forall v vals, String.prefix "critic" v = true -> st !! v = Some vals ->
                  Forall is_const vals) ->
  the_loss_c st (map feed_row rows) = Some d -> is_const d.
Proof using mlp_scope.
  intros Hst. unfold loss_c.
  destruct (td_errors _ _ _ _ _) as [errs|] eqn:He; cbn; [|discriminate].
  intros [= <-]. apply const_mean, Forall_map.
  unfold td_errors in He. apply mapM_Some in He.
  assert (Hc : Forall is_const errs).
  { apply Forall2_fmap_l in He.
    induction He as [|row e rows' errs' Hrow _ IH]; constructor; [|exact IH].
    by eapply td_error_const. }
  eapply Forall_impl; [exact Hc|]. intros e Hce. by apply const_mul.
Qed.

Lemma loss_c_partial_zero st rows v i :
  String.prefix "actor" v = true ->
  exists g, partial_derivative the_loss_c st rows v i = Some g /\ g == 0.
Proof using mlp_width mlp_scope.
  intros Hv. unfold partial_derivative.
  destruct (td_errors_defined mlp layer_sizes act_size mlp_width
              (seed st v i) (map feed_row rows)) as (errs & Herrs).
  destruct (the_loss_c (seed st v i) (map feed_row rows)) as [d|] eqn:Hd.
  - exists d.2. split; [done|]. eapply loss_c_const; [|exact Hd].
    intros name vals Hname. apply seed_const_other.
    intros ->. by eapply prefix_actor_not_critic.
  - unfold loss_c in Hd. rewrite Herrs in Hd. discriminate.
Qed.

(** Two runs of an optimiser from stores that agree on the variables it
    updates leave these variables with the same values. *)
Lemma apply_gradients_agree lr grads (U : string -> Prop)
    (s t : gmap string (list Q) * gmap string Slot) :
  (forall gv, gv ∈ grads -> U gv.2) ->
  (forall u, U u -> s.1 !! u = t.1 !! u /\ s.2 !! u = t.2 !! u) ->
  forall u, U u ->
    (apply_gradients adam lr grads s).1 !! u
      = (apply_gradients adam lr grads t).1 !! u /\
    (apply_gradients adam lr grads s).2 !! u
      = (apply_gradients adam lr grads t).2 !! u.
Proof.
  unfold apply_gradients. revert s t.
  induction grads as [|[g w] grads IH]; intros s t Hin Hst; [exact Hst|].
  cbn [foldl]. apply IH.
  - intros gv Hgv. apply Hin. by right.
  - assert (Hw : U w) by (apply (Hin (g, w)); left).
    destruct (Hst w Hw) as (Hv & Hs). cbn [fst snd]. rewrite Hv, Hs.
    destruct (t.1 !! w) as [x|]; [|exact Hst].
    destruct (adam lr g x (t.2 !! w)) as [x' slot']. cbn [fst snd].
    intros u Hu. destruct (decide (w = u)) as [->|Hne].
    + by rewrite !lookup_insert_eq.
    + rewrite !lookup_insert_ne by done. by apply Hst.
Qed.

(** X9: every partial derivative of the critic loss with respect to a
    component of an actor variable is defined and zero; the training
    operation of the critic leaves every actor variable as it was; and
    after the fused step an actor variable has the value that the actor's
    own operation gives it. *)
Theorem critic_loss_stops_at_actor
    mlp_variables global_variables actor_vars critic_vars :
  build_vars mlp_variables global_variables layer_sizes act_size
    = Some (actor_vars, critic_vars) ->
  (forall st rows v i,
     v ∈ actor_vars ->
     exists g, partial_derivative the_loss_c st rows v i = Some g /\ g == 0) /\
  (forall grad_clip_norm lr rows s s' v,
     v ∈ actor_vars ->
     train_op_c mlp layer_sizes act_size clip_by_norm adam critic_vars
       grad_clip_norm lr rows s = Some s' ->
     s'.1 !! v = s.1 !! v) /\
  (forall grad_clip_norm lr_c lr_a rows vars slots_c slots_a s' v,
     v ∈ actor_vars ->
     train_ops mlp sparse_softmax_cross_entropy_with_logits layer_sizes
       act_size clip_by_norm adam actor_vars critic_vars grad_clip_norm
       lr_c lr_a rows (vars, slots_c, slots_a) = Some s' ->
     exists s2,
       train_op_a mlp sparse_softmax_cross_entropy_with_logits layer_sizes
         act_size clip_by_norm adam actor_vars grad_clip_norm lr_a rows
         (vars, slots_a) = Some s2 /\
       s'.1.1 !! v = s2.1 !! v).
Proof using mlp_width mlp_scope.
  unfold build_vars. intros Hb.
  destruct (scope_vars "actor" _) as [av|] eqn:Ha; cbn in Hb; [|discriminate].
  destruct (scope_vars "critic" _) as [cv|] eqn:Hc; cbn in Hb; [|discriminate].
  injection Hb as <- <-.
  assert (Hsep : forall v, v ∈ av -> v ∉ cv).
  { intros v Hva Hvc. eapply prefix_actor_not_critic.
    - eapply scope_vars_prefix; [exact Ha | exact Hva].
    - eapply scope_vars_prefix; [exact Hc | exact Hvc]. }
  split; [|split].
  - intros st rows v i Hv. apply loss_c_partial_zero.
    eapply scope_vars_prefix; [exact Ha | exact Hv].
  - intros c lr rows s s' v Hv. unfold train_op_c.
    destruct (compute_gradients _ _ _ _) as [grads|] eqn:Hg; cbn; [|discriminate].
    intros [= <-]. apply apply_gradients_frame.
    rewrite clip_gradients_vars, (compute_gradients_vars _ _ _ _ Hg).
    by apply Hsep.
  - intros c lr_c lr_a rows vars slots_c slots_a s' v Hv.
    unfold train_ops, train_op_a. cbn [fst snd].
    destruct (compute_gradients (loss_c _ _ _) _ _ _) as [grads_c|] eqn:Hgc;
      cbn; [|discriminate].
    destruct (compute_gradients (loss_a _ _ _ _) _ _ _) as [grads_a|] eqn:Hga;
      cbn; [|discriminate].
    intros [= <-]. eexists. split; [reflexivity|]. cbn [fst snd].
    refine (proj1 (@apply_gradients_agree lr_a
                     (clip_gradients clip_by_norm c grads_a)
                     (fun u => u ∈ av) _ _ _ _ v Hv)).
    + intros gv Hgv.
      rewrite <- (compute_gradients_vars _ _ _ _ Hga),
        <- (clip_gradients_vars clip_by_norm c).
      apply list_elem_of_fmap. by exists gv.
    + intros u Hu. cbn [fst snd]. split; [|done].
      apply apply_gradients_frame.
      rewrite clip_gradients_vars, (compute_gradients_vars _ _ _ _ Hgc).
      by apply Hsep.
Qed.

(** X10: a clip norm of zero is falsy, so it disables clipping like [None]:
    the gradients pass as computed and the fused training step is the one
    without a clip norm. *)
Theorem zero_clip_norm_disables_clipping (c : Q)
    (grads : list (list Q * string)) actor_vars critic_vars lr_c lr_a rows s :
  c == 0 ->
  clip_gradients clip_by_norm (Some c) grads = grads /\
  train_ops mlp sparse_softmax_cross_entropy_with_logits layer_sizes
    act_size clip_by_norm adam actor_vars critic_vars (Some c) lr_c lr_a rows s
  = train_ops mlp sparse_softmax_cross_entropy_with_logits layer_sizes
      act_size clip_by_norm adam actor_vars critic_vars None lr_c lr_a rows s.
Proof.
  intros Hc. apply Qeq_bool_iff in Hc.
  unfold train_ops, clip_gradients. rewrite Hc. done.
Qed.

End CriticGradientProps.

Lemma critic_loss_stops_at_actor_witness :
  partial_derivative (loss_a toy_mlp toy_cross_entropy [64%nat] 2)
    toy_store toy_rows "actor/w" 0 = Some (6 # 4)%Q /\
  ((forall st rows v i,
      v ∈ ["actor/w"] ->
      exists g,
        partial_derivative (loss_c toy_mlp [64%nat] 2) st rows v i = Some g /\
        (g == 0)%Q) /\
   (forall grad_clip_norm lr rows s s' v,
      v ∈ ["actor/w"] ->
      train_op_c toy_mlp [64%nat] 2 toy_clip toy_adam ["critic/w"]
        grad_clip_norm lr rows s = Some s' ->
      s'.1 !! v = s.1 !! v) /\
   (forall grad_clip_norm lr_c lr_a rows vars slots_c slots_a s' v,
      v ∈ ["actor/w"] ->
      train_ops toy_mlp toy_cross_entropy [64%nat] 2 toy_clip toy_adam
        ["actor/w"] ["critic/w"] grad_clip_norm lr_c lr_a rows
        (vars, slots_c, slots_a) = Some s' ->
      exists s2,
        train_op_a toy_mlp toy_cross_entropy [64%nat] 2 toy_clip toy_adam
          ["actor/w"] grad_clip_norm lr_a rows (vars, slots_a) = Some s2 /\
        s'.1.1 !! v = s2.1 !! v)).
Proof.
  split; [vm_compute; reflexivity|].
  apply (@critic_loss_stops_at_actor toy_mlp toy_cross_entropy [64%nat] 2%nat
           toy_clip unit toy_adam
           (fun name sizes st x => toy_mlp_width name sizes st x)
           toy_mlp_scope
           toy_mlp_variables ["global_step"] ["actor/w"] ["critic/w"]).
  vm_compute. reflexivity.
Defined.

Lemma zero_clip_norm_disables_clipping_witness :
  clip_gradients (fun g c => map (Qmult c) g) (Some (0 # 3)%Q)
    [([1%Q; 2%Q], "actor/w")] = [([1%Q; 2%Q], "actor/w")] /\
  train_ops toy_mlp toy_cross_entropy [64%nat] 2
    (fun g c => map (Qmult c) g) toy_adam ["actor/w"] ["critic/w"]
    (Some (0 # 3)%Q) (1 # 10)%Q (1 # 10)%Q toy_rows (toy_store, ∅, ∅)
  = train_ops toy_mlp toy_cross_entropy [64%nat] 2
      (fun g c => map (Qmult c) g) toy_adam ["actor/w"] ["critic/w"]
      None (1 # 10)%Q (1 # 10)%Q toy_rows (toy_store, ∅, ∅).
Proof.
  apply (@zero_clip_norm_disables_clipping toy_mlp toy_cross_entropy [64%nat]
           2%nat (fun g c => map (Qmult c) g) unit toy_adam (0 # 3)%Q
           [([1%Q; 2%Q], "actor/w")] ["actor/w"] ["critic/w"]
           (1 # 10)%Q (1 # 10)%Q toy_rows (toy_store, ∅, ∅)).
  reflexivity.
Defined.

(** ** The bookkeeping of [train] *)

Section Bookkeeping.
Context {R : Type} {num : Num R} {collab : Collab R}.
Variable self : Policy R.

#[local] Abbreviation fed := (all_events (event_fed self)).

Lemma trailing_means_snoc (l : list R) (x : R) :
  trailing_means (l ++ [x])
  = trailing_means l ++ [np_mean (last_n 10 (l ++ [x]))].
Proof.
  unfold trailing_means. rewrite length_app. cbn [length].
  rewrite Nat.add_1_r, seq_S, map_app. cbn [map Nat.add]. f_equal.
  - apply map_ext_in. intros k [_ Hk]%in_seq.
    rewrite take_app_le by lia. done.
  - rewrite take_ge by (rewrite length_app; cbn; lia). done.
Qed.

Lemma length_trailing_means (l : list R) :
  length (trailing_means l) = length l.
Proof. unfold trailing_means. by rewrite length_map, length_seq. Qed.

Lemma length_closed_totals (log : list (event (R := R))) :
  length (closed_totals log) = (count_resets log - 1)%nat.
Proof.
  induction log as [|e log IH]; [done|].
  destruct e; try exact IH. cbn.
  destruct (Nat.eqb_spec (count_resets log) 0) as [->|Hne]; [done|].
  rewrite length_app, IH. cbn. lia.
Qed.

Lemma length_all_totals (log : list (event (R := R))) :
  length (all_totals log) = count_resets log.
Proof.
  unfold all_totals.
  destruct (Nat.eqb_spec (count_resets log) 0) as [->|Hne]; [done|].
  rewrite length_app, length_closed_totals. cbn. lia.
Qed.

Lemma act_trace_shape theta state epsilon rng env :
  let '(a, tr, _, _) := act_core self theta state epsilon rng env in
  if training self
  then exists u tr', tr = AeRandom u :: tr'
  else exists p n, tr = [AeActorProba state p; AeChoice n p a].
Proof.
  unfold act_core, act_infer. destruct (training self).
  - destruct (np_random_random rng) as [u rng1].
    destruct (num_ltb u epsilon).
    + destruct (action_space_sample env) as [a env1]. eauto.
    + destruct (np_random_choice _ _ rng1) as [a rng2]. cbn. eauto.
  - destruct (np_random_choice _ _ rng) as [a rng2]. cbn. eauto.
Qed.

Lemma drain_fed fuel tv w :
  vars_in_episode self tv w ->
  vars_in_episode self tv (drain self fuel tv w).2.
Proof.
  revert w. induction fuel as [|fuel IH]; intros w Hin; [exact Hin|].
  rewrite drain_unfold.
  destruct (Nat.leb_spec (batch_size self) (ReplayMemory.size (w_memory w)));
    [|exact Hin].
  cbn zeta. apply IH.
  destruct Hin as (Hstep & Hc & Ha & Hr & Hh & Hav & Hadd & Hpop & Hres & Hall).
  unfold vars_in_episode. cbn.
  rewrite <- Hstep, <- Hc, <- Ha, <- Hr, <- Hh, Hpop.
  repeat split; done.
Qed.

Lemma step_body_fed dfuel tv ev w :
  vars_in_episode self tv w ->
  let res := step_body self dfuel tv ev w in
  fed (w_log res.2) /\
  (forall tv1 ev1 done, res.1 = Done (tv1, ev1, done) ->
     vars_in_episode self tv1 res.2).
Proof.
  intros Hin res. subst res. rewrite step_body_unfold.
  pose proof (act_trace_shape (w_sess w) (ev_ob ev) (tv_eps tv)
                (w_rng w) (w_env w)) as Hact.
  open_step.
  destruct Hin as (Hstep & Hc & Ha & Hr & Hh & Hav & Hadd & Hpop & Hres & Hall).
  destruct (critic_eval (w_sess w) ob_next) as [|v row] eqn:Hrow.
  - cbn. split; [|intros; discriminate]. repeat split; done.
  - cbn zeta.
    match goal with |- context [drain self dfuel ?tv1 ?w4] =>
      pose proof (@drain_fed dfuel tv1 w4) as Hd;
      destruct (drain self dfuel tv1 w4) as [[[]| |] w5] end;
      cbn [fst snd] in *;
      (assert (Hin5 : vars_in_episode self
                 {| tv_step := (tv_step tv + 1)%Z;
                    tv_episode_reward := num_add (tv_episode_reward tv) r;
                    tv_reward_history := tv_reward_history tv;
                    tv_reward_averaged := tv_reward_averaged tv;
                    tv_lr_c := tv_lr_c tv;
                    tv_lr_a := tv_lr_a tv;
                    tv_eps := tv_eps tv |} w5);
       [ apply Hd; unfold vars_in_episode; cbn;
         rewrite <- Hc, <- Ha, <- Hr, <- Hh, Hpop, Hstep, length_app, Hadd;
         cbn; repeat split; try done; lia
       | ]).
    + split; [apply Hin5|]. by intros ? ? ? [= <- _ _].
    + split; [apply Hin5|]. intros; discriminate.
    + split; [apply Hin5|]. intros; discriminate.
Qed.

Lemma step_loop_fed fuel dfuel tv ev w :
  vars_in_episode self tv w ->
  let res := step_loop self fuel dfuel tv ev w in
  fed (w_log res.2) /\
  (forall tv1 ev1, res.1 = Done (tv1, ev1) -> vars_in_episode self tv1 res.2).
Proof.
  revert tv ev w. induction fuel as [|fuel IH]; intros tv ev w Hin.
  - cbn. split; [apply Hin | intros; discriminate].
  - cbn [step_loop]. unfold mbind, M_bind, bind.
    destruct (step_body_fed dfuel ev Hin) as (Hfed & Hvars).
    destruct (step_body self dfuel tv ev w) as [[[[tv1 ev1] done]| |] w1];
      cbn [fst snd] in *;
      try (split; [exact Hfed | intros; discriminate]).
    specialize (Hvars _ _ _ eq_refl).
    destruct done.
    + cbn. split; [exact Hfed|]. by intros ? ? [= <- _].
    + by apply IH.
Qed.

Lemma episode_fed fuel eps_drop tv w :
  vars_between self tv w ->
  let res := episode self fuel eps_drop tv w in
  fed (w_log res.2) /\
  (forall tv1, res.1 = Done tv1 -> vars_between self tv1 res.2).
Proof.
  intros Hin res. subst res. rewrite episode_unfold.
  destruct (env_reset (w_env w)) as [ob env1].
  pose proof (act_trace_shape (w_sess w) ob act_default_epsilon
                (w_rng w) env1) as Hact.
  destruct (act_core _ _ _ _ _ _) as [[[a tr] rng2] env2]. cbn zeta.
  destruct Hin as (Hstep & Hc & Ha & Hr & Hh & Hav & Hadd & Hpop & Hall).
  match goal with |- context [step_loop self fuel fuel tv ?ev ?w2] =>
    destruct (@step_loop_fed fuel fuel tv ev w2) as (Hfed & Hvars);
    [ | destruct (step_loop self fuel fuel tv ev w2) as [[[tv1 ev1]| |] w3] ] end.
  - unfold vars_in_episode. cbn. rewrite Nat.sub_0_r.
    repeat split; try done; lia.
  - cbn [fst snd] in *. split; [exact Hfed|]. intros tv2 [= <-].
    destruct (Hvars _ _ eq_refl)
      as (Hstep1 & Hc1 & Ha1 & Hr1 & Hh1 & Hav1 & Hadd1 & Hpop1 & Hres1 & Hall1).
    unfold vars_between, episode_end. cbn.
    rewrite Hc1, Ha1, Hav1, <- trailing_means_snoc, Hh1, Hr1.
    assert (Hlr : forall lr decay,
              num_mul (lr_at lr decay (count_resets (w_log w3) - 1)) decay
              = lr_at lr decay (count_resets (w_log w3))).
    { intros lr decay. unfold lr_at. clear -Hres1.
      destruct (count_resets (w_log w3)) as [|k]; [lia|].
      cbn [Nat.sub]. rewrite Nat.sub_0_r. reflexivity. }
    rewrite !Hlr. unfold all_totals.
    destruct (Nat.eqb_spec (count_resets (w_log w3)) 0) as [Hz|_]; [lia|].
    repeat split; done.
  - cbn [fst snd] in *. split; [exact Hfed | intros; discriminate].
  - cbn [fst snd] in *. split; [exact Hfed | intros; discriminate].
Qed.

Lemma episodes_fed fuel eps_drop n tv w :
  vars_between self tv w ->
  let res := episodes self fuel eps_drop n tv w in
  fed (w_log res.2) /\
  (forall tv1, res.1 = Done tv1 -> vars_between self tv1 res.2).
Proof.
  revert tv w. induction n as [|n IH]; intros tv w Hin.
  - cbn. split; [apply Hin|]. by intros ? [= <-].
  - cbn [episodes]. unfold mbind, M_bind, bind.
    destruct (episode_fed fuel eps_drop Hin) as (Hfed & Hvars).
    destruct (episode self fuel eps_drop tv w) as [[tv1| |] w1];
      cbn [fst snd] in *;
      try (split; [exact Hfed | intros; discriminate]).
    by apply IH, Hvars.
Qed.

Lemma train_fed fuel n_episodes annealing_episodes w0 :
  w_log w0 = [] ->
  let res := train self fuel n_episodes annealing_episodes w0 in
  fed (w_log res.2) /\
  (forall tv, res.1 = Done tv ->
     vars_between self tv res.2 /\
     exists h, w_log res.2 = EvSaveModel (tv_step tv) :: h).
Proof.
  intros Hlog res. subst res. unfold train.
  assert (Hin0 : vars_between self (initial_vars self) w0).
  { unfold vars_between. rewrite Hlog. cbn. repeat split; done. }
  destruct (annealing_or annealing_episodes n_episodes =? 0)%Z.
  { cbn. split; [apply Hin0 | intros; discriminate]. }
  unfold mbind, M_bind, bind.
  destruct (episodes_fed fuel
              (eps_drop_of (annealing_or annealing_episodes n_episodes))
              (Z.to_nat n_episodes) Hin0) as (Hfed & Hvars).
  destruct (episodes self fuel _ (Z.to_nat n_episodes) (initial_vars self) w0)
    as [[tv1| |] w1]; cbn [fst snd] in *;
    try (split; [exact Hfed | intros; discriminate]).
  destruct (Hvars _ eq_refl)
    as (Hstep & Hc & Ha & Hr & Hh & Hav & Hadd & Hpop & Hall).
  assert (Hin2 : vars_between self tv1 (push_log (EvSaveModel (tv_step tv1)) w1)).
  { unfold vars_between. cbn. repeat split; done. }
  unfold emit. destruct (tv_reward_history tv1) eqn:Hhist; cbn.
  - split; [apply Hin2 | intros; discriminate].
  - split; [apply Hin2|]. intros tv [= <-]. split; [exact Hin2 | eauto].
Qed.

End Bookkeeping.

(** ** The stream of records through the memory *)

Section Stream.
Context {R : Type} {num : Num R} {collab : Collab R}.
Variable self : Policy R.

Lemma added_app (l1 h : list (event (R := R))) :
  added (l1 ++ h) = added h ++ added l1.
Proof.
  induction l1 as [|e l1 IH]; cbn; [by rewrite app_nil_r|].
  destruct e; try exact IH. by rewrite IH, app_assoc.
Qed.

Lemma count_pops_app (l1 h : list (event (R := R))) :
  count_pops (l1 ++ h) = (count_pops l1 + count_pops h)%nat.
Proof.
  induction l1 as [|e l1 IH]; cbn; [done|].
  destruct e; try exact IH. by rewrite IH.
Qed.

(** The memory is the stream of records, initial and added, without those
    the pops took from its front. *)
Lemma memory_at_stream theta0 m0 eps_drop (log : list (event (R := R))) :
  all_events (event_ok self theta0 m0 eps_drop) log ->
  memory_at m0 log
    = drop (batch_size self * count_pops log) (m0 ++ added log) /\
  (batch_size self * count_pops log <= length (m0 ++ added log))%nat.
Proof.
  induction log as [|e log IH]; cbn [all_events].
  - intros _. cbn. rewrite Nat.mul_0_r, app_nil_r. split; [done | lia].
  - intros [He Hall]. destruct (IH Hall) as (Hmem & Hle).
    destruct e; cbn [memory_at count_pops added]; try (split; assumption).
    + unfold ReplayMemory.add. rewrite Hmem, (app_assoc m0 (added log) [rec]).
      rewrite (drop_app_le (m0 ++ added log) [rec]) by exact Hle.
      split; [done|]. rewrite length_app. lia.
    + destruct He as (_ & -> & Hsize & _).
      unfold ReplayMemory.size in Hsize.
      rewrite Hmem, length_drop in Hsize.
      rewrite Hmem, drop_drop, Nat.mul_succ_r. split; [done | lia].
Qed.

Lemma episode_leftover fuel eps_drop tv w tv1 :
  (episode self fuel eps_drop tv w).1 = Done tv1 ->
  (ReplayMemory.size (w_memory (episode self fuel eps_drop tv w).2)
   < batch_size self)%nat.
Proof.
  rewrite episode_unfold.
  destruct (env_reset (w_env w)) as [ob env1].
  destruct (act_core _ _ _ _ _ _) as [[[a tr] rng2] env2]. cbn zeta.
  match goal with |- context [step_loop self fuel fuel tv ?ev ?w2] =>
    pose proof (step_loop_leftover self fuel fuel tv ev w2) as Hl;
    destruct (step_loop self fuel fuel tv ev w2) as [[[tv2 ev2]| |] w3] end;
    cbn [fst snd] in *; try discriminate.
  intros _. by eapply Hl.
Qed.

Lemma episodes_leftover fuel eps_drop n tv w tv1 :
  (episodes self fuel eps_drop (S n) tv w).1 = Done tv1 ->
  (ReplayMemory.size (w_memory (episodes self fuel eps_drop (S n) tv w).2)
   < batch_size self)%nat.
Proof.
  revert tv w. induction n as [|n IH]; intros tv w.
  - cbn [episodes]. unfold mbind, M_bind, bind.
    pose proof (@episode_leftover fuel eps_drop tv w) as Hl.
    destruct (episode self fuel eps_drop tv w) as [[tv2| |] w1];
      cbn [fst snd] in *; try discriminate.
    intros _. by eapply Hl.
  - change (episodes self fuel eps_drop (S (S n)) tv w)
      with (bind (episode self fuel eps_drop tv)
                 (episodes self fuel eps_drop (S n)) w).
    unfold bind.
    destruct (episode self fuel eps_drop tv w) as [[tv2| |] w1];
      cbn [fst snd]; try discriminate.
    apply IH.
Qed.

Lemma train_leftover fuel n_episodes annealing_episodes w0 tv :
  (train self fuel n_episodes annealing_episodes w0).1 = Done tv ->
  (ReplayMemory.size
     (w_memory (train self fuel n_episodes annealing_episodes w0).2)
   < batch_size self)%nat.
Proof.
  unfold train.
  destruct (annealing_or annealing_episodes n_episodes =? 0)%Z; [discriminate|].
  unfold mbind, M_bind, bind.
  destruct (Z.to_nat n_episodes) as [|n].
  - cbn. discriminate.
  - pose proof (@episodes_leftover fuel
                  (eps_drop_of (annealing_or annealing_episodes n_episodes))
                  n (initial_vars self) w0) as Hl.
    destruct (episodes self fuel _ (S n) (initial_vars self) w0)
      as [[tv1| |] w1]; cbn [fst snd] in *; try discriminate.
    unfold emit. destruct (tv_reward_history tv1); cbn; [discriminate|].
    intros _. by eapply Hl.
Qed.

(** X11: the records leave the memory in the order they entered it, each
    once: the batch fed to a training step is the next [batch_size] records
    of the stream made of the initial memory followed by the records added
    during the run, after those the earlier steps took; what [train] leaves
    in the memory is the rest of that stream. *)
Theorem batches_are_consecutive_slices
    fuel n_episodes annealing_episodes w0 :
  w_log w0 = [] ->
  let res := train self fuel n_episodes annealing_episodes w0 in
  let stream := w_memory w0 ++ added (w_log res.2) in
  (forall l1 feed h,
     w_log res.2 = l1 ++ EvTrainOps feed :: h ->
     exists n batch h',
       h = EvMemPop n batch :: h' /\
       let recs :=
         take (batch_size self)
              (drop (batch_size self * count_pops h') stream) in
       length recs = batch_size self /\
       feed_states feed = map (@rec_s R) recs /\
       feed_actions feed = map (@rec_a R) recs /\
       feed_rewards feed = map (@rec_r R) recs /\
       feed_td_targets feed = map (@rec_td_target R) recs) /\
  w_memory res.2
    = drop (batch_size self * count_pops (w_log res.2)) stream.
Proof.
  intros Hlog res stream. subst res stream.
  destruct (train_spec self fuel n_episodes annealing_episodes w0 Hlog)
    as ((_ & Hm & _ & Hall) & _).
  split.
  - intros l1 feed h Hsplit. rewrite Hsplit in Hall.
    pose proof (all_events_at _ _ _ _ Hall)
      as (n & batch & h' & -> & Hs & Ha & Hr & Ht).
    exists n, batch, h'. split; [done|].
    apply all_events_suffix in Hall. destruct Hall as (_ & Hpop & Hall').
    destruct Hpop as (_ & -> & Hsize & ->).
    destruct (memory_at_stream _ _ _ _ Hall') as (Hmem & Hle).
    rewrite Hs, Ha, Hr, Ht, Hsplit.
    replace (l1 ++ EvTrainOps feed :: EvMemPop (batch_size self)
               (ReplayMemory.reformat
                  (take (batch_size self) (memory_at (w_memory w0) h'))) :: h')
      with ((l1 ++ [EvTrainOps feed; EvMemPop (batch_size self)
               (ReplayMemory.reformat
                  (take (batch_size self) (memory_at (w_memory w0) h')))]) ++ h')
      by (by rewrite <- app_assoc).
    rewrite added_app, app_assoc.
    unfold ReplayMemory.size in Hsize. rewrite Hmem, length_drop in Hsize.
    rewrite drop_app_le by exact Hle.
    rewrite take_app_le by (rewrite length_drop; lia).
    rewrite <- Hmem. cbn zeta.
    split; [|done].
    rewrite length_take, Hmem, length_drop. lia.
  - rewrite Hm. by destruct (memory_at_stream _ _ _ _ Hall) as (-> & _).
Qed.

(** X12: when [train] returns, the number of training steps it ran is the
    quotient of the number of records that went through the memory (those
    it held at the start and one per environment step) by [batch_size], and
    the memory holds the remainder; a policy in evaluation mode trains no
    less. *)
Theorem training_steps_are_quotient
    fuel n_episodes annealing_episodes w0 tv :
  w_log w0 = [] ->
  let res := train self fuel n_episodes annealing_episodes w0 in
  res.1 = Done tv ->
  let records := (ReplayMemory.size (w_memory w0) + Z.to_nat (tv_step tv))%nat in
  count_train (w_log res.2) = (records / batch_size self)%nat /\
  ReplayMemory.size (w_memory res.2) = (records mod batch_size self)%nat.
Proof.
  intros Hlog res Hdone records. subst res records.
  destruct (train_spec self fuel n_episodes annealing_episodes w0 Hlog)
    as ((_ & Hm & _ & Hall) & _).
  destruct (train_fed self fuel n_episodes annealing_episodes w0 Hlog)
    as (_ & Hvars).
  destruct (Hvars _ Hdone) as ((Hstep & _ & _ & _ & _ & _ & Hadd & Hpop & _) & _).
  pose proof (train_leftover _ _ _ _ Hdone) as Hleft.
  destruct (memory_at_stream _ _ _ _ Hall) as (Hmem & Hle).
  rewrite Hm, Hmem in Hleft |- *.
  unfold ReplayMemory.size in *.
  rewrite length_drop, length_app, Hadd, Hpop in *.
  rewrite Hstep, Nat2Z.id.
  set (p := count_train _) in *. set (k := count_steps _) in *.
  set (b := batch_size self) in *. set (m := length (w_memory w0)) in *.
  split.
  - apply (Nat.div_unique (m + k) b p (m + k - b * p)); lia.
  - apply (Nat.mod_unique (m + k) b p (m + k - b * p)); lia.
Qed.

End Stream.

(** ** What [train] feeds, tags and returns *)

Section TrainBookkeeping.
Context {R : Type} {num : Num R} {collab : Collab R}.
Variable self : Policy R.

(** X13: [step] counts the calls of [env.step]: every summary is written
    under the number of environment steps taken so far, by all episodes
    together; when [train] returns, [step] is the total, one record was
    added per step, and the model was saved under that total, after the
    last environment step. *)
Theorem summaries_tagged_with_env_steps
    fuel n_episodes annealing_episodes w0 :
  w_log w0 = [] ->
  let res := train self fuel n_episodes annealing_episodes w0 in
  (forall l1 step h,
     w_log res.2 = l1 ++ EvAddSummary step :: h ->
     step = Z.of_nat (count_steps h)) /\
  (forall l1 step h,
     w_log res.2 = l1 ++ EvSaveModel step :: h ->
     step = Z.of_nat (count_steps h)) /\
  (forall tv, res.1 = Done tv ->
     tv_step tv = Z.of_nat (count_steps (w_log res.2)) /\
     length (added (w_log res.2)) = count_steps (w_log res.2) /\
     exists l1 h,
       w_log res.2 = l1 ++ EvSaveModel (tv_step tv) :: h /\
       count_steps l1 = 0%nat).
Proof.
  intros Hlog res. subst res.
  destruct (train_fed self fuel n_episodes annealing_episodes w0 Hlog)
    as (Hfed & Hvars).
  split; [|split].
  - intros l1 step h Hsplit. rewrite Hsplit in Hfed.
    by apply all_events_at in Hfed.
  - intros l1 step h Hsplit. rewrite Hsplit in Hfed.
    by apply all_events_at in Hfed.
  - intros tv Hdone.
    destruct (Hvars _ Hdone)
      as ((Hstep & _ & _ & _ & _ & _ & Hadd & _) & (h & Hlast)).
    split; [done|]. split; [done|]. by exists [], h.
Qed.

(** X14: every training step of episode [k] (counting from one) is fed the
    two learning rates as [k - 1] decays have left them: the rates are
    constant within an episode and change between episodes only, however
    many training steps an episode runs. *)
Theorem fed_learning_rates_of_episode
    fuel n_episodes annealing_episodes w0 l1 feed h :
  w_log w0 = [] ->
  w_log (train self fuel n_episodes annealing_episodes w0).2
    = l1 ++ EvTrainOps feed :: h ->
  (1 <= count_resets h)%nat /\
  feed_learning_rate_c feed
    = lr_at (lr_c self) (lr_c_decay self) (count_resets h - 1) /\
  feed_learning_rate_a feed
    = lr_at (lr_a self) (lr_a_decay self) (count_resets h - 1).
Proof.
  intros Hlog Hsplit.
  destruct (train_fed self fuel n_episodes annealing_episodes w0 Hlog)
    as (Hfed & _).
  rewrite Hsplit in Hfed.
  apply all_events_at in Hfed. by destruct Hfed as (Hk & Hc & Ha & _).
Qed.


(** X16: when [train] returns, [reward_averaged] has one entry per episode,
    and entry [k] is the mean of the totals of episode [k] and of the nine
    episodes before it, or of all episodes so far when they are fewer. *)
Theorem reward_averaged_is_trailing_mean
    fuel n_episodes annealing_episodes w0 tv :
  w_log w0 = [] ->
  (train self fuel n_episodes annealing_episodes w0).1 = Done tv ->
  length (tv_reward_averaged tv) = Z.to_nat n_episodes /\
  forall k, (k < Z.to_nat n_episodes)%nat ->
    tv_reward_averaged tv !! k
    = Some (np_mean (drop (S k - 10) (take (S k) (tv_reward_history tv)))).
Proof.
  intros Hlog Hdone.
  destruct (train_fed self fuel n_episodes annealing_episodes w0 Hlog)
    as (_ & Hvars).
  destruct (train_spec self fuel n_episodes annealing_episodes w0 Hlog)
    as (_ & _ & Hspec).
  destruct (Hvars _ Hdone) as ((_ & _ & _ & _ & Hh & Hav & _) & _).
  destruct (Hspec _ Hdone) as (Hcnt & _).
  assert (Hlen : length (tv_reward_history tv) = Z.to_nat n_episodes)
    by (by rewrite Hh, length_all_totals).
  rewrite Hav, length_trailing_means. split; [exact Hlen|].
  intros k Hk. unfold trailing_means.
  rewrite list_lookup_fmap, lookup_seq_lt by lia. cbn.
  unfold last_n. rewrite length_take. do 3 f_equal. lia.
Qed.

(** X17: a policy in evaluation mode never explores during [train]: every
    call of [act], the ignored one after the reset included, evaluates the
    actor on the state and draws the action returned by [np.random.choice]
    from these probabilities, and does nothing else: no uniform number is
    drawn and the action space is never sampled. *)
Theorem evaluation_mode_never_explores
    fuel n_episodes annealing_episodes w0 l1 state epsilon tr a h :
  w_log w0 = [] ->
  training self = false ->
  w_log (train self fuel n_episodes annealing_episodes w0).2
    = l1 ++ EvAct state epsilon tr a :: h ->
  exists p n, tr = [AeActorProba state p; AeChoice n p a].
Proof.
  intros Hlog Hmode Hsplit.
  destruct (train_fed self fuel n_episodes annealing_episodes w0 Hlog)
    as (Hfed & _).
  rewrite Hsplit in Hfed. apply all_events_at in Hfed.
  cbn in Hfed. by rewrite Hmode in Hfed.
Qed.

End TrainBookkeeping.

(** ** Arguments at the edge *)

Section TrainEdges.
Context {R : Type} {num : Num R} {collab : Collab R}.
Variable self : Policy R.

(** X18: [train] raises [ZeroDivisionError] exactly when [n_episodes] is
    zero and [annealing_episodes] is [None] or zero, and then before any
    call: the environment, the session, the memory and the generator are
    as they were. *)
Theorem train_divides_by_zero_episodes
    fuel n_episodes annealing_episodes w0 :
  w_log w0 = [] ->
  let res := train self fuel n_episodes annealing_episodes w0 in
  raises ZeroDivisionError res.1
    = ((n_episodes =? 0)%Z && (default 0%Z annealing_episodes =? 0)%Z) /\
  (raises ZeroDivisionError res.1 = true -> res.2 = w0).
Proof.
  intros Hlog res. subst res.
  assert (Hann : (annealing_or annealing_episodes n_episodes =? 0)%Z
                 = ((n_episodes =? 0)%Z
                    && (default 0%Z annealing_episodes =? 0)%Z)).
  { unfold annealing_or. destruct annealing_episodes as [k|]; cbn.
    - destruct (Z.eqb_spec k 0) as [->|Hk]; [by rewrite andb_true_r|].
      rewrite andb_false_r. by apply Z.eqb_neq.
    - by rewrite andb_true_r. }
  rewrite <- Hann. unfold train.
  destruct (annealing_or annealing_episodes n_episodes =? 0)%Z eqn:Hz;
    [by cbn|].
  unfold mbind, M_bind, bind.
  set (eps_drop := eps_drop_of (annealing_or annealing_episodes n_episodes)).
  assert (Hok0 : world_ok self (w_sess w0) (w_memory w0) eps_drop w0).
  { unfold world_ok. rewrite Hlog. cbn. done. }
  destruct (episodes_spec fuel (Z.to_nat n_episodes) (initial_vars self) Hok0)
    as (_ & _ & Hr & _).
  { rewrite Hlog. reflexivity. }
  destruct (episodes self fuel eps_drop (Z.to_nat n_episodes) (initial_vars self) w0)
    as [[tv1| |] w1]; cbn [fst snd] in *.
  - unfold emit. destruct (tv_reward_history tv1); cbn; split; done.
  - rewrite Hr. split; done.
  - cbn. split; done.
Qed.

(** X19: asked for no episode, or for a negative number of them, with a
    non-zero annealing length, [train] never touches the environment: it
    saves the model under step 0 and then fails with [ValueError], the
    maximum of the empty reward history. *)
Theorem train_without_episodes_fails
    fuel n_episodes annealing_episodes w0 :
  (n_episodes <= 0)%Z ->
  (annealing_or annealing_episodes n_episodes =? 0)%Z = false ->
  train self fuel n_episodes annealing_episodes w0
  = (Raise ValueError, push_log (EvSaveModel 0) w0).
Proof.
  intros Hn Hann. unfold train. rewrite Hann.
  replace (Z.to_nat n_episodes) with 0%nat by lia.
  reflexivity.
Qed.

Lemma drain_zero_batch fuel tv w :
  batch_size self = 0%nat -> (drain self fuel tv w).1 = Timeout.
Proof.
  intros Hb. revert w. induction fuel as [|fuel IH]; intros w; [done|].
  rewrite drain_unfold, Hb. cbn [Nat.leb]. apply IH.
Qed.

Lemma step_body_zero_batch dfuel tv ev w :
  batch_size self = 0%nat ->
  (step_body self dfuel tv ev w).1 = Timeout \/
  (step_body self dfuel tv ev w).1 = Raise IndexError /\
  exists theta ob, critic_eval theta ob = [].
Proof.
  intros Hb. rewrite step_body_unfold. open_step.
  destruct (critic_eval (w_sess w) ob_next) as [|v row] eqn:Hrow.
  - right. split; [done | eauto].
  - left. cbn zeta.
    match goal with |- context [drain self dfuel ?tv1 ?w4] =>
      pose proof (@drain_zero_batch dfuel tv1 w4 Hb) as Hd;
      destruct (drain self dfuel tv1 w4) as [[[]| |] w5] end;
      cbn [fst] in *; done.
Qed.

(** Pass on, to the call around it, the way a call ended without
    returning. *)
Ltac relay Hs :=
  let He := fresh "He" in
  destruct Hs as [Hs|[Hs He]];
  first [ discriminate Hs
        | by left
        | right; split; [by injection Hs as -> | exact He] ].

Lemma step_loop_zero_batch fuel dfuel tv ev w :
  batch_size self = 0%nat ->
  (step_loop self fuel dfuel tv ev w).1 = Timeout \/
  (step_loop self fuel dfuel tv ev w).1 = Raise IndexError /\
  exists theta ob, critic_eval theta ob = [].
Proof.
  intros Hb. destruct fuel as [|fuel]; [by left|].
  cbn [step_loop]. unfold mbind, M_bind, bind.
  pose proof (step_body_zero_batch dfuel tv ev w Hb) as Hs.
  destruct (step_body self dfuel tv ev w) as [[[[tv1 ev1] done]| |] w1];
    cbn [fst] in *; relay Hs.
Qed.

Lemma episodes_zero_batch fuel eps_drop n tv w :
  batch_size self = 0%nat ->
  (episodes self fuel eps_drop (S n) tv w).1 = Timeout \/
  (episodes self fuel eps_drop (S n) tv w).1 = Raise IndexError /\
  exists theta ob, critic_eval theta ob = [].
Proof.
  intros Hb. cbn [episodes]. unfold mbind, M_bind, bind.
  rewrite episode_unfold.
  destruct (env_reset (w_env w)) as [ob env1].
  destruct (act_core _ _ _ _ _ _) as [[[a tr] rng2] env2]. cbn zeta.
  match goal with |- context [step_loop self fuel fuel tv ?ev ?w2] =>
    pose proof (step_loop_zero_batch fuel fuel tv ev w2 Hb) as Hs;
    destruct (step_loop self fuel fuel tv ev w2) as [[[tv1 ev1]| |] w3] end;
    cbn [fst] in *; relay Hs.
Qed.

(** X20: with a batch size of zero the inner loop never ends, its test
    [size >= 0] being always true and the pop of no record always possible:
    [train] returns with no amount of fuel, and when it is asked for an
    episode and the critic returns a value it only runs out of fuel. *)
Theorem zero_batch_size_never_returns
    fuel n_episodes annealing_episodes w0 :
  batch_size self = 0%nat ->
  let res := train self fuel n_episodes annealing_episodes w0 in
  is_done res.1 = false /\
  ((0 < n_episodes)%Z ->
   (annealing_or annealing_episodes n_episodes =? 0)%Z = false ->
   (forall theta ob, critic_eval theta ob <> []) ->
   res.1 = Timeout).
Proof.
  intros Hb res. subst res. unfold train.
  destruct (annealing_or annealing_episodes n_episodes =? 0)%Z;
    [split; [done | discriminate]|].
  unfold mbind, M_bind, bind.
  destruct (Z.to_nat n_episodes) as [|n] eqn:Hn.
  - cbn. split; [done | lia].
  - pose proof (episodes_zero_batch fuel
                  (eps_drop_of (annealing_or annealing_episodes n_episodes))
                  n (initial_vars self) w0 Hb) as Hs.
    destruct (episodes self fuel _ (S n) (initial_vars self) w0)
      as [[tv1| |] w1]; cbn [fst] in *.
    + destruct Hs as [?|[? _]]; discriminate.
    + split; [done|]. intros _ _ Hrow.
      destruct Hs as [?|[_ (theta & ob & Hempty)]]; [done|].
      by apply Hrow in Hempty.
    + split; done.
Qed.

(** X21: once [eps] is not above 0.01 it never changes again: if that is so
    after [k] episodes, a run of [k] episodes or more returns with the
    [eps] of episode [k], in whatever arithmetic, also when that value is
    below the floor. *)
Theorem epsilon_stays_once_not_above_floor
    fuel n_episodes annealing_episodes w0 tv (k : nat) :
  w_log w0 = [] ->
  let eps_drop := eps_drop_of (annealing_or annealing_episodes n_episodes) in
  num_ltb (lit 1 100) (eps_at eps_drop k) = false ->
  (k <= Z.to_nat n_episodes)%nat ->
  (train self fuel n_episodes annealing_episodes w0).1 = Done tv ->
  tv_eps tv = eps_at eps_drop k.
Proof.
  intros Hlog eps_drop Hk Hle Hdone.
  destruct (train_spec self fuel n_episodes annealing_episodes w0 Hlog)
    as (_ & _ & Hspec).
  destruct (Hspec _ Hdone) as (_ & -> & _). fold eps_drop.
  replace (Z.to_nat n_episodes) with ((Z.to_nat n_episodes - k) + k)%nat by lia.
  induction (Z.to_nat n_episodes - k)%nat as [|j IH]; [done|].
  change (S j + k)%nat with (S (j + k)).
  unfold eps_at in *. rewrite Nat.iter_succ, IH.
  unfold anneal at 1. by rewrite Hk.
Qed.

Lemma step_body_steps dfuel tv ev w tv1 ev1 ended :
  (step_body self dfuel tv ev w).1 = Done (tv1, ev1, ended) ->
  tv_step tv1 = (tv_step tv + 1)%Z.
Proof.
  rewrite step_body_unfold. open_step.
  destruct (critic_eval (w_sess w) ob_next) as [|v row]; [done|].
  cbn zeta. destruct (drain _ _ _ _) as [[[]| |] w5]; cbn; try done.
  by intros [= <- _ _].
Qed.

Lemma step_loop_steps fuel dfuel tv ev w tv1 ev1 :
  (step_loop self fuel dfuel tv ev w).1 = Done (tv1, ev1) ->
  (tv_step tv < tv_step tv1)%Z.
Proof.
  revert tv ev w. induction fuel as [|fuel IH]; intros tv ev w; [done|].
  cbn [step_loop]. unfold mbind, M_bind, bind.
  pose proof (step_body_steps dfuel tv ev w) as Hs.
  destruct (step_body self dfuel tv ev w) as [[[[tv2 ev2] done]| |] w1];
    cbn [fst snd] in *; try discriminate.
  specialize (Hs _ _ _ eq_refl). destruct done.
  - cbn. intros [= <- _]. lia.
  - intros Hd. apply IH in Hd. lia.
Qed.

Lemma episodes_steps fuel eps_drop n tv w tv1 :
  (episodes self fuel eps_drop n tv w).1 = Done tv1 ->
  (tv_step tv + Z.of_nat n <= tv_step tv1)%Z.
Proof.
  revert tv w. induction n as [|n IH]; intros tv w.
  - cbn. intros [= <-]. lia.
  - cbn [episodes]. unfold mbind, M_bind, bind. rewrite episode_unfold.
    destruct (env_reset (w_env w)) as [ob env1].
    destruct (act_core _ _ _ _ _ _) as [[[a tr] rng2] env2]. cbn zeta.
    match goal with |- context [step_loop self fuel fuel tv ?ev ?w2] =>
      pose proof (step_loop_steps fuel fuel tv ev w2) as Hs;
      destruct (step_loop self fuel fuel tv ev w2) as [[[tv2 ev2]| |] w3] end;
      cbn [fst snd] in *; try discriminate.
    specialize (Hs _ _ eq_refl). intros Hd. apply IH in Hd. cbn in Hd. lia.
Qed.

(** X1: the step loop runs its body before it looks at [done], so every
    episode takes at least one environment step, also in an environment
    that is done at once: when [train] returns, [step] is at least the
    number of episodes, and so is the number of calls of [env.step]. *)
Theorem every_episode_takes_a_step
    fuel n_episodes annealing_episodes w0 tv :
  w_log w0 = [] ->
  let res := train self fuel n_episodes annealing_episodes w0 in
  res.1 = Done tv ->
  (n_episodes <= tv_step tv)%Z /\
  (count_resets (w_log res.2) <= count_steps (w_log res.2))%nat.
Proof.
  intros Hlog res Hdone. subst res.
  destruct (train_fed self fuel n_episodes annealing_episodes w0 Hlog)
    as (_ & Hvars).
  destruct (train_spec self fuel n_episodes annealing_episodes w0 Hlog)
    as (_ & _ & Hspec).
  destruct (Hvars _ Hdone) as ((Hstep & _) & _).
  destruct (Hspec _ Hdone) as (Hcnt & _).
  assert (Hlow : (Z.of_nat (Z.to_nat n_episodes) <= tv_step tv)%Z).
  { clear -Hdone. unfold train in Hdone.
    destruct (annealing_or annealing_episodes n_episodes =? 0)%Z; [done|].
    unfold mbind, M_bind, bind in Hdone.
    pose proof (episodes_steps fuel
                  (eps_drop_of (annealing_or annealing_episodes n_episodes))
                  (Z.to_nat n_episodes) (initial_vars self) w0) as Hs.
    destruct (episodes self fuel _ (Z.to_nat n_episodes) (initial_vars self) w0)
      as [[tv1| |] w1]; cbn [fst snd] in *; try discriminate.
    specialize (Hs _ eq_refl). cbn in Hs.
    unfold emit in Hdone. destruct (tv_reward_history tv1); cbn in Hdone;
      [done|]. injection Hdone as <-. lia. }
  rewrite Hcnt. lia.
Qed.

End TrainEdges.

(** ** [train] returns *)

Section TrainReturns.
Context {R : Type} {num : Num R} {collab : Collab R}.
Variable self : Policy R.

(** A bound on the steps an episode can still take. *)
Variable mu : Env -> nat.
Hypothesis mu_sample : forall e, mu (action_space_sample e).2 = mu e.
Hypothesis mu_step :
  forall a e, (env_step a e).1.2 = true \/ (mu (env_step a e).2 < mu e)%nat.
Hypothesis critic_row_nonempty : forall theta ob, critic_eval theta ob <> [].
Hypothesis batch_size_positive : (0 < batch_size self)%nat.

(** X22: when every episode of the environment ends within a bound, the
    critic returns a value and batches hold at least one record, [train]
    asked for at least one episode with a non-zero annealing length returns:
    no exception, both loops end; it has then reset the environment once per
    episode, and both histories have one entry per episode. *)
Theorem train_returns_after_every_episode
    fuel n_episodes annealing_episodes w0 :
  w_log w0 = [] ->
  annealing_or annealing_episodes n_episodes <> 0%Z ->
  (0 < n_episodes)%Z ->
  (forall e, mu (env_reset e).2 < fuel)%nat ->
  (ReplayMemory.size (w_memory w0) + 1 < fuel)%nat ->
  (batch_size self < fuel)%nat ->
  let res := train self fuel n_episodes annealing_episodes w0 in
  exists tv,
    res.1 = Done tv /\
    count_resets (w_log res.2) = Z.to_nat n_episodes /\
    length (tv_reward_history tv) = Z.to_nat n_episodes /\
    length (tv_reward_averaged tv) = Z.to_nat n_episodes.
Proof using mu_sample mu_step critic_row_nonempty batch_size_positive.
  intros Hlog Hann Hn Hreset Hsize Hb res. subst res.
  destruct (@train_returns R num collab self mu mu_sample mu_step
              critic_row_nonempty batch_size_positive fuel n_episodes
              annealing_episodes w0 Hlog Hann Hn Hreset Hsize Hb)
    as (tv & Hdone).
  exists tv. split; [exact Hdone|].
  destruct (train_fed self fuel n_episodes annealing_episodes w0 Hlog)
    as (_ & Hvars).
  destruct (train_spec self fuel n_episodes annealing_episodes w0 Hlog)
    as (_ & _ & Hspec).
  destruct (Hvars _ Hdone) as ((_ & _ & _ & _ & Hh & Hav & _) & _).
  destruct (Hspec _ Hdone) as (Hcnt & _).
  rewrite Hav, length_trailing_means, Hh, length_all_totals. done.
Qed.

End TrainReturns.

(** ** The runs of the small world *)

Lemma batches_are_consecutive_slices_witness :
  w_memory toy_run_Q.2
  = drop (2 * count_pops (w_log toy_run_Q.2))
         (w_memory toy_world ++ added (w_log toy_run_Q.2)).
Proof.
  exact (proj2 (@batches_are_consecutive_slices Q Num_Q toy_collab
                  (toy_policy 2) 10%nat 2%Z None toy_world eq_refl)).
Defined.

Lemma training_steps_are_quotient_witness :
  count_train (w_log toy_run_Q.2) = 3%nat /\
  ReplayMemory.size (w_memory toy_run_Q.2) = 0%nat.
Proof.
  apply (@training_steps_are_quotient Q Num_Q toy_collab (toy_policy 2)
           10%nat 2%Z None toy_world toy_vars_Q);
    [reflexivity | vm_compute; reflexivity].
Defined.

Lemma summaries_tagged_with_env_steps_witness :
  tv_step toy_vars_Q = Z.of_nat (count_steps (w_log toy_run_Q.2)) /\
  length (added (w_log toy_run_Q.2)) = count_steps (w_log toy_run_Q.2) /\
  exists l1 h,
    w_log toy_run_Q.2 = l1 ++ EvSaveModel (tv_step toy_vars_Q) :: h /\
    count_steps l1 = 0%nat.
Proof.
  apply (@summaries_tagged_with_env_steps Q Num_Q toy_collab (toy_policy 2)
           10%nat 2%Z None toy_world eq_refl).
  vm_compute. reflexivity.
Defined.

Lemma fed_learning_rates_of_episode_witness :
  (1 <= count_resets (drop 14 toy_log_Q))%nat /\
  feed_learning_rate_c toy_feed_2
    = lr_at (lr_c (toy_policy 2)) (lr_c_decay (toy_policy 2))
        (count_resets (drop 14 toy_log_Q) - 1) /\
  feed_learning_rate_a toy_feed_2
    = lr_at (lr_a (toy_policy 2)) (lr_a_decay (toy_policy 2))
        (count_resets (drop 14 toy_log_Q) - 1).
Proof.
  apply (@fed_learning_rates_of_episode Q Num_Q toy_collab (toy_policy 2)
           10%nat 2%Z None toy_world (take 13 toy_log_Q) toy_feed_2
           (drop 14 toy_log_Q));
    [reflexivity | vm_compute; reflexivity].
Defined.


Lemma reward_averaged_is_trailing_mean_witness :
  length (tv_reward_averaged toy_vars_Q) = Z.to_nat 2 /\
  forall k, (k < Z.to_nat 2)%nat ->
    tv_reward_averaged toy_vars_Q !! k
    = Some (np_mean (drop (S k - 10) (take (S k) (tv_reward_history toy_vars_Q)))).
Proof.
  apply (@reward_averaged_is_trailing_mean Q Num_Q toy_collab (toy_policy 2)
           10%nat 2%Z None toy_world toy_vars_Q);
    [reflexivity | vm_compute; reflexivity].
Defined.

Lemma evaluation_mode_never_explores_witness :
  exists p n,
    [AeActorProba (toy_ob 1 0) [1%Q; 1%Q]; AeChoice 2 [1%Q; 1%Q] 0]
    = [AeActorProba (R := Q) (toy_ob 1 0) p; AeChoice n p 0].
Proof.
  apply (@evaluation_mode_never_explores Q Num_Q toy_collab toy_policy_eval
           10%nat 1%Z None toy_world (take 16 (w_log toy_run_eval.2))
           (toy_ob 1 0) (lit 1 10)
           [AeActorProba (toy_ob 1 0) [1%Q; 1%Q]; AeChoice 2 [1%Q; 1%Q] 0]
           0%nat [EvReset (toy_ob 1 0)]);
    [reflexivity | reflexivity | vm_compute; reflexivity].
Defined.

Lemma train_divides_by_zero_episodes_witness :
  raises ZeroDivisionError
    (@train Q Num_Q toy_collab (toy_policy 2) 10 0 None toy_world).1 = true /\
  (raises ZeroDivisionError
     (@train Q Num_Q toy_collab (toy_policy 2) 10 0 None toy_world).1 = true ->
   (@train Q Num_Q toy_collab (toy_policy 2) 10 0 None toy_world).2 = toy_world).
Proof.
  apply (@train_divides_by_zero_episodes Q Num_Q toy_collab (toy_policy 2)
           10%nat 0%Z None toy_world).
  reflexivity.
Defined.

Lemma train_without_episodes_fails_witness :
  @train Q Num_Q toy_collab (toy_policy 2) 10 (-3) (Some 5%Z) toy_world
  = (Raise ValueError, push_log (EvSaveModel 0) toy_world).
Proof.
  apply (@train_without_episodes_fails Q Num_Q toy_collab (toy_policy 2)
           10%nat (-3)%Z (Some 5%Z) toy_world);
    [lia | reflexivity].
Defined.

Lemma zero_batch_size_never_returns_witness :
  (@train Q Num_Q toy_collab (toy_policy 0) 50 2 None toy_world).1 = Timeout.
Proof.
  apply (@zero_batch_size_never_returns Q Num_Q toy_collab (toy_policy 0)
           50%nat 2%Z None toy_world eq_refl);
    [lia | reflexivity | intros theta ob; discriminate].
Defined.

Lemma epsilon_stays_once_not_above_floor_witness :
  tv_eps toy_vars_float
  = eps_at (eps_drop_of (annealing_or (Some 10%Z) 20)) 11.
Proof.
  apply (@epsilon_stays_once_not_above_floor float Num_float toy_collab
           (toy_policy 2) 10%nat 20%Z (Some 10%Z) toy_world toy_vars_float 11%nat);
    [reflexivity | vm_compute; reflexivity | cbn; lia | vm_compute; reflexivity].
Defined.

Lemma train_returns_after_every_episode_witness :
  exists tv,
    toy_run_Q.1 = Done tv /\
    count_resets (w_log toy_run_Q.2) = Z.to_nat 2 /\
    length (tv_reward_history tv) = Z.to_nat 2 /\
    length (tv_reward_averaged tv) = Z.to_nat 2.
Proof.
  apply (@train_returns_after_every_episode Q Num_Q toy_collab (toy_policy 2)
           (fun e : nat * nat => (3 - e.2)%nat)).
  - reflexivity.
  - intros a e.
    change ((3 <=? S e.2)%nat = true \/ (3 - S e.2 < 3 - e.2)%nat).
    destruct (Nat.leb_spec 3 (S e.2)); [by left | right; lia].
  - discriminate.
  - cbn. lia.
  - reflexivity.
  - discriminate.
  - lia.
  - intros e. cbn. lia.
  - cbn. lia.
  - cbn. lia.
Defined.

Lemma every_episode_takes_a_step_witness :
  (2 <= tv_step toy_vars_Q)%Z /\
  (count_resets (w_log toy_run_Q.2) <= count_steps (w_log toy_run_Q.2))%nat.
Proof.
  apply (@every_episode_takes_a_step Q Num_Q toy_collab (toy_policy 2)
           10%nat 2%Z None toy_world toy_vars_Q);
    [reflexivity | vm_compute; reflexivity].
Defined.
